(** * Verification of the SCB API client query pipeline (src/src/api-client.ts)

    Shallow embedding of [SCBApiClient]: the usage window
    ([initializeRateLimit], [checkRateLimit], [makeRequest]), the name and
    value translators, [validateSelection], [getTableData], [searchTables],
    [transformToStructuredData] and [getDimensionBaseName].

    Modelling conventions.
    - Strings are [String.string] holding UTF-8 bytes; [toLowerCase] maps
      ASCII A-Z and the Latin-1 capitals (UTF-8 [C3 80]-[C3 9E], except the
      multiplication sign) to lower case, the part of Unicode lower-casing
      the dictionaries of the client can observe.
    - A JS object used as a dictionary is an association list in property
      order. Reading a missing property falls through to [Object.prototype],
      as in JS: [obj["constructor"]] is the [Object] function.
    - Times are milliseconds as [Z]; numbers of the payload are [Z].
    - An exception is the [Throw] case of [jsres], carrying [error.message]. *)

From Stdlib Require Import ZArith List String Ascii Bool Lia.
Import ListNotations.
Open Scope string_scope.
Set Warnings "-register-all".

(** ** JS values and dictionary objects *)

Inductive jsval : Type :=
| JUndef
| JNull
| JStr (s : string)
| JNum (z : Z)
| JLit (own : list (string * jsval))   (** an object literal *)
| JProto                               (** [Object.prototype] *)
| JBuiltin (name : string).            (** a built-in function *)

Inductive jsres (A : Type) : Type :=
| Ok (a : A)
| Throw (msg : string).
Arguments Ok {A} a.
Arguments Throw {A} msg.

Definition bind {A B} (m : jsres A) (f : A -> jsres B) : jsres B :=
  match m with Ok a => f a | Throw e => Throw e end.
Notation "x <- m ;; k" := (bind m (fun x => k))
  (at level 61, m at next level, right associativity).

Fixpoint mapM {A B} (f : A -> jsres B) (l : list A) : jsres (list B) :=
  match l with
  | [] => Ok []
  | a :: l' => b <- f a ;; bs <- mapM f l' ;; Ok (b :: bs)
  end.

(** JS truthiness. *)
Definition truthy (v : jsval) : bool :=
  match v with
  | JUndef | JNull => false
  | JStr s => negb (String.eqb s "")
  | JNum z => negb (Z.eqb z 0)
  | _ => true
  end.

(** The members of [Object.prototype] other than [__proto__]. *)
Definition object_prototype_methods : list string :=
  ["toString"; "toLocaleString"; "valueOf"; "hasOwnProperty";
   "isPrototypeOf"; "propertyIsEnumerable"; "__defineGetter__";
   "__defineSetter__"; "__lookupGetter__"; "__lookupSetter__"].

Definition is_proto_member (k : string) : bool :=
  String.eqb k "constructor" || String.eqb k "__proto__"
  || existsb (String.eqb k) object_prototype_methods.

(** Reading property [k] of an ordinary object that has no own property
    [k]: the lookup continues in [Object.prototype]; its [__proto__]
    accessor returns the object's prototype, [Object.prototype]. *)
Definition inherited_get (k : string) : jsval :=
  if String.eqb k "constructor" then JBuiltin "Object"
  else if String.eqb k "__proto__" then JProto
  else if existsb (String.eqb k) object_prototype_methods then JBuiltin k
  else JUndef.

Fixpoint assoc {A} (l : list (string * A)) (k : string) : option A :=
  match l with
  | [] => None
  | (k', v) :: l' => if String.eqb k k' then Some v else assoc l' k
  end.

(** [m[k]] for an object literal whose values are strings. *)
Definition lit_get (m : list (string * string)) (k : string) : jsval :=
  match assoc m k with Some v => JStr v | None => inherited_get k end.

(** [o[k] = v] on an ordinary object: an existing own property is updated
    in place, a new one is appended. Assigning [__proto__] replaces the
    prototype and creates no own property. *)
Fixpoint obj_update {A} (o : list (string * A)) (k : string) (v : A)
  : option (list (string * A)) :=
  match o with
  | [] => None
  | (k', v') :: o' =>
      if String.eqb k k' then Some ((k', v) :: o')
      else match obj_update o' k v with
           | Some o'' => Some ((k', v') :: o'')
           | None => None
           end
  end.

Definition obj_set {A} (o : list (string * A)) (k : string) (v : A)
  : list (string * A) :=
  if String.eqb k "__proto__" then o
  else match obj_update o k v with
       | Some o' => o'
       | None => o ++ [(k, v)]
       end.

(** Decimal rendering of an integer, as [String(n)]. *)
Fixpoint digits_of (fuel : nat) (n : Z) (acc : string) : string :=
  match fuel with
  | O => acc
  | S f =>
      let d := Z.modulo n 10 in
      let acc' := String (ascii_of_nat (48 + Z.to_nat d)) acc in
      if Z.ltb n 10 then acc' else digits_of f (Z.div n 10) acc'
  end.

Definition Z_to_string (n : Z) : string :=
  if Z.ltb n 0 then "-" ++ digits_of (Z.to_nat (- n)) (- n) ""
  else digits_of (Z.to_nat n) n "".

(** [String(v)], the property key a value becomes when used as one. *)
Definition js_to_string (v : jsval) : string :=
  match v with
  | JUndef => "undefined"
  | JNull => "null"
  | JStr s => s
  | JNum z => Z_to_string z
  | JLit _ | JProto => "[object Object]"
  | JBuiltin n => "function " ++ n ++ "() { [native code] }"
  end.

(** ** Strings *)

Definition N_of (c : ascii) : N := N_of_ascii c.

(** [String.prototype.toLowerCase] on UTF-8 bytes (see the header). *)
Fixpoint toLowerCase (s : string) : string :=
  match s with
  | EmptyString => EmptyString
  | String c rest =>
      let n := N_of c in
      if (65 <=? n)%N && (n <=? 90)%N then
        String (ascii_of_N (n + 32)) (toLowerCase rest)
      else if (n =? 195)%N then
        match rest with
        | String d rest' =>
            let m := N_of d in
            if (128 <=? m)%N && (m <=? 158)%N && negb (m =? 151)%N then
              String c (String (ascii_of_N (m + 32)) (toLowerCase rest'))
            else String c (toLowerCase rest)
        | EmptyString => String c EmptyString
        end
      else String c (toLowerCase rest)
  end.

(** [hay.includes(needle)]. *)
Definition includes (hay needle : string) : bool :=
  match String.index 0 needle hay with Some _ => true | None => false end.

(** [s.startsWith(p)]. *)
Definition startsWith (s p : string) : bool := String.prefix p s.

(** [xs.join(sep)]. *)
Definition join (sep : string) (xs : list string) : string :=
  String.concat sep xs.

Definition dq : string := String (ascii_of_nat 34) EmptyString.
Definition quoted (s : string) : string := dq ++ s ++ dq.

Open Scope Z_scope.

(** ** The usage window: [rateLimitInfo], [requestCount], [windowStartTime] *)

Record RateLimitInfo : Type := {
  remaining : Z;
  resetTime : Z;
  maxCalls : Z;
  timeWindow : Z
}.

Record window : Type := {
  rateLimitInfo : option RateLimitInfo;
  requestCount : Z;
  windowStartTime : Z
}.

(** [new SCBApiClient()] at time [t]: the field initialisers. *)
Definition new_client (t : Z) : window :=
  {| rateLimitInfo := None; requestCount := 0; windowStartTime := t |}.

(** Outcome of the [/config] fetch inside [initializeRateLimit]. *)
Inductive config_outcome : Type :=
| ConfigNotOk                          (** [!response.ok] *)
| ConfigThrows                         (** fetch, json or parse raised *)
| ConfigOk (maxCallsPerTimeWindow cfgTimeWindow : Z).

Definition default_rate_limit (t : Z) : RateLimitInfo :=
  {| remaining := 30; resetTime := t + 10000; maxCalls := 30; timeWindow := 10 |}.

(** [initializeRateLimit], [Date.now()] being [t]. *)
Definition initializeRateLimit (cfg : config_outcome) (t : Z) (w : window) : window :=
  match rateLimitInfo w with
  | Some _ => w
  | None =>
      let r := match cfg with
               | ConfigOk m tw =>
                   {| remaining := m; resetTime := t + tw * 1000;
                      maxCalls := m; timeWindow := tw |}
               | ConfigNotOk | ConfigThrows => default_rate_limit t
               end in
      {| rateLimitInfo := Some r; requestCount := requestCount w;
         windowStartTime := windowStartTime w |}
  end.

(** [Math.ceil(a / b)] for [b > 0]. *)
Definition ceil_div (a b : Z) : Z := - ((- a) / b).

(** [checkRateLimit]: the config fetch (if needed) answers [cfg] at time
    [tinit], then [new Date()] is [now]. The call returns normally
    ([Ok tt]) or throws "Rate limit exceeded"; the state changes made before
    the throw persist. *)
Definition checkRateLimit (cfg : config_outcome) (tinit now : Z) (w : window)
  : window * jsres unit :=
  let w1 := match rateLimitInfo w with
            | None => initializeRateLimit cfg tinit w
            | Some _ => w
            end in
  match rateLimitInfo w1 with
  | None => (w1, Throw "Cannot read properties of null (reading 'resetTime')")
  | Some r =>
      let w2 :=
        if Z.leb (resetTime r) now then
          {| rateLimitInfo :=
               Some {| remaining := maxCalls r;
                       resetTime := now + timeWindow r * 1000;
                       maxCalls := maxCalls r; timeWindow := timeWindow r |};
             requestCount := 0; windowStartTime := now |}
        else w1 in
      if Z.leb (maxCalls r) (requestCount w2) then
        let waitTime := match rateLimitInfo w2 with
                        | Some r2 => resetTime r2 - now
                        | None => 0
                        end in
        (w2, Throw ("Rate limit exceeded. Try again in "
                    ++ Z_to_string (ceil_div waitTime 1000)
                    ++ " seconds. Current usage: " ++ Z_to_string (requestCount w2)
                    ++ "/" ++ Z_to_string (maxCalls r)))
      else (w2, Ok tt)
  end.

(** [this.requestCount++] and the [remaining] update after a dispatched call. *)
Definition recordCall (w : window) : window :=
  let c := requestCount w + 1 in
  {| rateLimitInfo :=
       option_map (fun r => {| remaining := Z.max 0 (maxCalls r - c);
                               resetTime := resetTime r; maxCalls := maxCalls r;
                               timeWindow := timeWindow r |}) (rateLimitInfo w);
     requestCount := c; windowStartTime := windowStartTime w |}.

(** Outcome of the awaited [fetch] of [makeRequest]: it rejects (no call
    was dispatched), or a response arrives and is then turned into a value
    or an error (status, content type, schema). *)
Inductive transport (A : Type) : Type :=
| FetchRejects (msg : string)
| Delivered (r : jsres A).
Arguments FetchRejects {A} msg.
Arguments Delivered {A} r.

(** [makeRequest]: admission check, fetch, [requestCount++] once a response
    arrived, then the response handling. [getTableData] follows the same
    pattern around its POST. *)
Definition makeRequest {A} (cfg : config_outcome) (tinit now : Z)
    (tr : transport A) (w : window) : window * jsres A :=
  let (w1, adm) := checkRateLimit cfg tinit now w in
  match adm with
  | Throw e => (w1, Throw e)
  | Ok _ =>
      match tr with
      | FetchRejects m => (w1, Throw m)
      | Delivered r => (recordCall w1, r)
      end
  end.

(** Interleavings of admission checks and recordings as they arise when
    several requests are in flight: every [await] of [makeRequest] (the
    config fetch, the data fetch) lets another request run. *)
Inductive event : Type :=
| EvCheck (cfg : config_outcome) (tinit now : Z)
| EvRecord.

Definition run_event (e : event) (w : window) : window :=
  match e with
  | EvCheck cfg tinit now => fst (checkRateLimit cfg tinit now w)
  | EvRecord => recordCall w
  end.

Fixpoint run_events (es : list event) (w : window) : window :=
  match es with
  | [] => w
  | e :: es' => run_events es' (run_event e w)
  end.

(** Sequential use: one [makeRequest] after the other. *)
Inductive call : Type :=
| Call (cfg : config_outcome) (tinit now : Z) (tr : transport unit).

Definition run_call (c : call) (w : window) : window :=
  match c with Call cfg tinit now tr => fst (makeRequest cfg tinit now tr w) end.

Fixpoint run_calls (cs : list call) (w : window) : window :=
  match cs with
  | [] => w
  | c :: cs' => run_calls cs' (run_call c w)
  end.

(** [used <= capacity], with a capacity that is a non-negative integer. *)
Definition quota_inv (w : window) : Prop :=
  match rateLimitInfo w with
  | None => requestCount w = 0
  | Some r => 0 <= maxCalls r /\ 0 <= requestCount w <= maxCalls r
  end.

(** The window bounds agree: [resetTime = windowStartTime + timeWindow s]. *)
Definition window_synced (w : window) : Prop :=
  match rateLimitInfo w with
  | None => True
  | Some r => resetTime r = windowStartTime w + timeWindow r * 1000
  end.

Definition cfg_nonneg (cfg : config_outcome) : Prop :=
  match cfg with ConfigOk m _ => 0 <= m | _ => True end.

Definition call_cfg_nonneg (c : call) : Prop :=
  match c with Call cfg _ _ _ => cfg_nonneg cfg end.

(** ** Table metadata and payloads ([DatasetSchema] in types.ts) *)

Record Category : Type := {
  index : list (string * Z);                    (** [category.index], key order *)
  cat_label : option (list (string * string))   (** [category.label] *)
}.

Record DimDef : Type := {
  label : string;
  category : Category
}.

Record Dataset : Type := {
  ds_id : list string;
  ds_label : string;
  ds_source : option string;
  size : list Z;
  dimension : option (list (string * DimDef));  (** [Object.entries] order *)
  value : option (list (option Z))              (** [null] entries are [None] *)
}.

(** ** [translateCommonVariables] *)

Definition variableMapping : list (string * string) :=
  [("år", "Tid"); ("månad", "Tid"); ("kön", "Kon"); ("ålder", "Alder");
   ("län", "Region"); ("kommun", "Region"); ("utbildning", "UtbildningsNiva");
   ("sysselsättning", "Sysselsattning"); ("inkomst", "Inkomst");
   ("familjetyp", "Familjetyp"); ("civilstånd", "Civilstand");
   ("year", "Tid"); ("time", "Tid"); ("month", "Tid"); ("sex", "Kon");
   ("gender", "Kon"); ("age", "Alder"); ("county", "Region");
   ("municipality", "Region"); ("education", "UtbildningsNiva");
   ("employment", "Sysselsattning"); ("income", "Inkomst");
   ("family_type", "Familjetyp"); ("marital_status", "Civilstand");
   ("region", "Region"); ("alder", "Alder"); ("kon", "Kon"); ("tid", "Tid");
   ("utbildningsniva", "UtbildningsNiva"); ("sysselsattning", "Sysselsattning");
   ("civilstand", "Civilstand"); ("contentscode", "ContentsCode");
   ("observations", "ContentsCode"); ("contents", "ContentsCode")].

(** [variableMapping[key] || variableMapping[key.toLowerCase()] || key] *)
Definition mappedKey (key : string) : jsval :=
  let a := lit_get variableMapping key in
  if truthy a then a
  else let b := lit_get variableMapping (toLowerCase key) in
       if truthy b then b else JStr key.

(** [translatedSelection[mappedKey] = values] for each entry, in order. *)
Definition translateCommonVariables {A} (selection : list (string * A)) (lang : string)
  : list (string * A) :=
  fold_left (fun acc '(key, values) => obj_set acc (js_to_string (mappedKey key)) values)
    selection [].

(** ** [translateCommonValues] *)

Definition valueMapping : list (string * list (string * string)) :=
  [("Alder", [("total", "tot"); ("all", "tot"); ("totalt", "tot"); ("totals", "TotSA")]);
   ("Tid", [("latest", "2024"); ("recent", "2024"); ("current", "2024")]);
   ("Kon", [("total", "tot"); ("all", "tot"); ("male", "1"); ("female", "2");
            ("men", "1"); ("women", "2"); ("man", "1"); ("woman", "2")]);
   ("*", [("total", "tot"); ("all", "*"); ("totalt", "tot"); ("alla", "*")])].

(** [valueMapping[k]]. *)
Definition valueMapping_get (k : string) : jsval :=
  match assoc valueMapping k with
  | Some m => JLit (map (fun '(a, b) => (a, JStr b)) m)
  | None => inherited_get k
  end.

(** [value.toLowerCase()]. *)
Definition js_toLowerCase (v : jsval) : jsres string :=
  match v with
  | JStr s => Ok (toLowerCase s)
  | JUndef => Throw "Cannot read properties of undefined (reading 'toLowerCase')"
  | JNull => Throw "Cannot read properties of null (reading 'toLowerCase')"
  | _ => Throw "value.toLowerCase is not a function"
  end.

Definition is_digit (c : ascii) : bool :=
  let n := N_of c in (48 <=? n)%N && (n <=? 57)%N.

(** [/^\d{4}$/] *)
Definition is_year (s : string) : bool :=
  match s with
  | String a (String b (String c (String d EmptyString))) =>
      is_digit a && is_digit b && is_digit c && is_digit d
  | _ => false
  end.

(** [/^\d{4}-\d{2}$/] *)
Definition is_year_month (s : string) : bool :=
  match s with
  | String a (String b (String c (String d (String h (String e (String f EmptyString)))))) =>
      is_digit a && is_digit b && is_digit c && is_digit d
      && Ascii.eqb h "-"%char && is_digit e && is_digit f
  | _ => false
  end.

(** [s.replace('-', 'M')]: the first occurrence only. *)
Fixpoint replace_first_dash (s : string) : string :=
  match s with
  | EmptyString => EmptyString
  | String c rest =>
      if Ascii.eqb c "-"%char then String "M"%char rest
      else String c (replace_first_dash rest)
  end.

Section Translation.

(** Reading property [k] of the built-in function named [f] (reached only
    through [valueMapping[variableName]] for a [variableName] naming an
    [Object.prototype] member) is left abstract: every result is proved for
    all behaviours of it. *)
Variable builtin_get : string -> string -> jsres jsval.

(** [o[k]] for the mapping objects of [translateCommonValues]. *)
Definition js_get (o : jsval) (k : string) : jsres jsval :=
  match o with
  | JLit own => Ok (match assoc own k with Some v => v | None => inherited_get k end)
  | JProto =>
      Ok (if String.eqb k "__proto__" then JNull else inherited_get k)
  | JBuiltin f => builtin_get f k
  | JStr _ => builtin_get "String.prototype" k
  | JNum _ => builtin_get "Number.prototype" k
  | JUndef => Throw ("Cannot read properties of undefined (reading '" ++ k ++ "')")
  | JNull => Throw ("Cannot read properties of null (reading '" ++ k ++ "')")
  end.

(** The callback of [values.map] in [translateCommonValues]. *)
Definition translateValue (variableName : string) (v : jsval) : jsres jsval :=
  let specificMapping := valueMapping_get variableName in
  hit <- (if truthy specificMapping then
            lv <- js_toLowerCase v ;;
            x <- js_get specificMapping lv ;;
            if truthy x then (y <- js_get specificMapping lv ;; Ok (Some y))
            else Ok None
          else Ok None) ;;
  match hit with
  | Some y => Ok y
  | None =>
      let generalMapping := valueMapping_get "*" in
      hit2 <- (if truthy generalMapping then
                 lv <- js_toLowerCase v ;;
                 x <- js_get generalMapping lv ;;
                 if truthy x then (y <- js_get generalMapping lv ;; Ok (Some y))
                 else Ok None
               else Ok None) ;;
      match hit2 with
      | Some y => Ok y
      | None =>
          match v with
          | JStr s =>
              if String.eqb variableName "Tid" && is_year s then Ok v
              else if String.eqb variableName "Tid" && is_year_month s
              then Ok (JStr (replace_first_dash s))
              else Ok v
          | _ => Ok v
          end
      end
  end.

Definition translateCommonValues (values : list jsval) (variableName : string)
  : jsres (list jsval) :=
  mapM (translateValue variableName) values.

End Translation.

(** ** [validateSelection] *)

Record ValidationResult : Type := {
  isValid : bool;
  errors : list string;
  suggestions : list string;
  translatedSelection : option (list (string * list jsval))
}.

Section Validation.

Variable builtin_get : string -> string -> jsres jsval.

(** [value === '*' || value.startsWith('TOP(') || ... || value.startsWith('RANGE(')] *)
Definition is_expression (v : jsval) : jsres bool :=
  match v with
  | JStr s => Ok (String.eqb s "*" || startsWith s "TOP(" || startsWith s "BOTTOM("
                  || startsWith s "RANGE(")
  | JUndef => Throw "Cannot read properties of undefined (reading 'startsWith')"
  | JNull => Throw "Cannot read properties of null (reading 'startsWith')"
  | _ => Throw "value.startsWith is not a function"
  end.

Definition js_str_eq (v : jsval) (s : string) : bool :=
  match v with JStr s' => String.eqb s' s | _ => false end.

(** The inner [for (const value of values)] loop. *)
Fixpoint check_values (tableId varCode : string) (availableValues : list string)
    (values : list jsval) (errs sugs : list string) : jsres (list string * list string) :=
  match values with
  | [] => Ok (errs, sugs)
  | v :: rest =>
      special <- is_expression v ;;
      if special then check_values tableId varCode availableValues rest errs sugs
      else if existsb (js_str_eq v) availableValues
      then check_values tableId varCode availableValues rest errs sugs
      else
        let s := js_to_string v in
        let errs' := app errs ["Value " ++ quoted s ++ " not found for variable "
                              ++ quoted varCode] in
        let similarValues :=
          firstn 3 (filter (fun a => includes (toLowerCase a) (toLowerCase s))
                      availableValues) in
        let sugs' := app sugs
          [match similarValues with
           | [] => "Use scb_get_table_variables with tableId=" ++ quoted tableId
                   ++ " and variableName=" ++ quoted varCode ++ " to see all values"
           | _ => "For " ++ quoted varCode ++ ", did you mean: "
                  ++ join ", " similarValues ++ "?"
           end] in
        check_values tableId varCode availableValues rest errs' sugs'
  end.

(** The outer [for (const [varCode, values] of Object.entries(...))] loop. *)
Fixpoint check_variables (tableId : string) (dims : list (string * DimDef))
    (entries : list (string * list jsval)) (errs sugs : list string)
  : jsres (list string * list string) :=
  let availableVariables := map fst dims in
  match entries with
  | [] => Ok (errs, sugs)
  | (varCode, values) :: rest =>
      match assoc dims varCode with
      | None =>
          let errs' := app errs ["Variable " ++ quoted varCode ++ " not found in table"] in
          let lc := toLowerCase varCode in
          let similar :=
            filter (fun v => includes (toLowerCase v) lc
                             || match assoc dims v with
                                | Some d => includes (toLowerCase (label d)) lc
                                | None => false
                                end) availableVariables in
          let sugs' := app sugs
            [match similar with
             | [] => "Available variables: " ++ join ", " availableVariables
             | _ => "Did you mean: " ++ join ", " (map quoted similar) ++ "?"
             end] in
          check_variables tableId dims rest errs' sugs'
      | Some varDef =>
          r <- check_values tableId varCode (map fst (index (category varDef)))
                 values errs sugs ;;
          check_variables tableId dims rest (fst r) (snd r)
      end
  end.

(** The loop building [finalSelection]. *)
Fixpoint translate_all_values (entries : list (string * list string))
    (acc : list (string * list jsval)) : jsres (list (string * list jsval)) :=
  match entries with
  | [] => Ok acc
  | (varName, values) :: rest =>
      vs <- translateCommonValues builtin_get (map JStr values) varName ;;
      translate_all_values rest (obj_set acc varName vs)
  end.

Definition finalSelection_of (selection : list (string * list string)) (lang : string)
  : jsres (list (string * list jsval)) :=
  translate_all_values (translateCommonVariables selection lang) [].

Definition missing_of (dims : list (string * DimDef)) (selected : list string)
  : list string :=
  filter (fun v => negb (existsb (String.eqb v) selected)) (map fst dims).

(** The body of the [try] block. [meta] is the outcome of
    [await this.getTableMetadata(tableId, lang)] (which includes the
    admission check of [makeRequest]). *)
Definition validateSelection_try (tableId : string) (selection : list (string * list string))
    (lang : string) (meta : jsres Dataset) : jsres ValidationResult :=
  final <- finalSelection_of selection lang ;;
  metadata <- meta ;;
  match dimension metadata with
  | None =>
      Ok {| isValid := false;
            errors := ["Table metadata not available for validation"];
            suggestions := ["Try using scb_get_table_info first"];
            translatedSelection := None |}
  | Some dims =>
      let missing := missing_of dims (map fst final) in
      let errs0 := match missing with
                   | [] => []
                   | _ => ["Missing mandatory variables: " ++ join ", " missing]
                   end in
      let sugs0 := match missing with
                   | [] => []
                   | m0 :: _ =>
                       ["SCB tables require all dimensions to be specified. "
                        ++ "Add these variables to your selection: " ++ join ", " missing;
                        "Use " ++ quoted "*" ++ " as value to select all values for a "
                        ++ "dimension, e.g. {" ++ quoted m0 ++ ": [" ++ quoted "*" ++ "]}"]
                   end in
      r <- check_variables tableId dims final errs0 sugs0 ;;
      Ok {| isValid := match fst r with [] => true | _ => false end;
            errors := fst r; suggestions := snd r;
            translatedSelection := Some final |}
  end.

(** [validateSelection]: the [try] block and its [catch]. *)
Definition validateSelection (tableId : string) (selection : list (string * list string))
    (lang : string) (meta : jsres Dataset) : ValidationResult :=
  match validateSelection_try tableId selection lang meta with
  | Ok r => r
  | Throw msg =>
      {| isValid := false;
         errors := ["Validation failed: " ++ msg];
         suggestions := ["Try checking if the table ID is correct with scb_get_table_info"];
         translatedSelection := None |}
  end.

End Validation.

(** ** [transformToStructuredData] and [getDimensionBaseName] *)

Definition nameMapping : list (string * string) :=
  [("Region", "region"); ("Alder", "age"); ("Kon", "sex"); ("Tid", "year");
   ("UtbildningsNiva", "education_level"); ("ContentsCode", "observation_type");
   ("Sysselsattning", "employment_status"); ("Civilstand", "marital_status");
   ("Familjetyp", "family_type")].

(** [nameMapping[dimName] || dimName.toLowerCase()] *)
Definition getDimensionBaseName (dimName : string) : jsval :=
  let a := lit_get nameMapping dimName in
  if truthy a then a else JStr (toLowerCase dimName).

(** JS numbers along the index computation: [Some n] is a finite value,
    [None] is [NaN] or [Infinity] (from a dimension with no codes). *)
Definition js_mod (t : option Z) (s : Z) : option Z :=
  match t with Some x => if Z.eqb s 0 then None else Some (x mod s) | None => None end.

(** [Math.floor(t / s)] *)
Definition js_floor_div (t : option Z) (s : Z) : option Z :=
  match t with Some x => if Z.eqb s 0 then None else Some (x / s) | None => None end.

(** [codes[i]] *)
Definition js_index (codes : list string) (i : option Z) : jsval :=
  match i with
  | Some k => match nth_error codes (Z.to_nat k) with Some c => JStr c | None => JUndef end
  | None => JUndef
  end.

Definition record := list (string * jsval).

Definition dim_codes (d : DimDef) : list string := map fst (index (category d)).

(** [const dimensionSizes = dimensions.map(... Object.keys(index).length)] *)
Definition dimensionSizes (dims : list (string * DimDef)) : list Z :=
  map (fun d => Z.of_nat (List.length (dim_codes (snd d)))) dims.

(** [for (let i = dimensions.length - 1; i >= 0; i--)]: [fill_record dims
    sizes k temp record] runs the iterations [i = k-1, ..., 0]. *)
Fixpoint fill_record (dims : list (string * DimDef)) (sizes : list Z) (k : nat)
    (temp : option Z) (rec : record) : record :=
  match k with
  | O => rec
  | S i =>
      match nth_error dims i with
      | None => rec
      | Some (dimName, dimDef) =>
          let dimSize := nth i sizes 0 in
          let dimIndex := js_mod temp dimSize in
          let temp' := js_floor_div temp dimSize in
          let code := js_index (dim_codes dimDef) dimIndex in
          let lbl := match cat_label (category dimDef) with
                     | Some lm => lit_get lm (js_to_string code)
                     | None => code
                     end in
          let baseName := js_to_string (getDimensionBaseName dimName) in
          let rec1 := obj_set rec (baseName ++ "_code") code in
          let rec2 := obj_set rec1 (baseName ++ "_name")
                        (if truthy lbl then lbl else code) in
          fill_record dims sizes i temp' rec2
      end
  end.

(** [jsonStat2Data.value.forEach((value, flatIndex) => ...)] *)
Fixpoint decode_values (dims : list (string * DimDef)) (sizes : list Z)
    (vals : list (option Z)) (flatIndex : nat) : list record :=
  match vals with
  | [] => []
  | None :: rest => decode_values dims sizes rest (S flatIndex)
  | Some v :: rest =>
      obj_set (fill_record dims sizes (List.length dims) (Some (Z.of_nat flatIndex)) [])
              "value" (JNum v)
      :: decode_values dims sizes rest (S flatIndex)
  end.

Record Summary : Type := {
  total_records : Z;
  non_null_records : option Z;
  total_value : option Z;
  has_data : bool
}.

(** The [data] and [summary] fields of the result; [query] and [metadata]
    only echo the input. *)
Record StructuredData : Type := {
  data : list record;
  summary : Summary
}.

Definition record_value (r : record) : jsval :=
  match assoc r "value" with Some v => v | None => JUndef end.

Definition transformToStructuredData (ds : Dataset) : StructuredData :=
  match value ds, dimension ds with
  | Some vals, Some dims =>
      let records := decode_values dims (dimensionSizes dims) vals 0 in
      let totalRecords := Z.of_nat (List.length records) in
      let totalValue :=
        fold_left (fun sum r => sum + match record_value r with
                                      | JNum z => z
                                      | _ => 0
                                      end) records 0 in
      let nonNull := filter (fun r => match record_value r with
                                      | JNull | JUndef => false
                                      | _ => true
                                      end) records in
      {| data := records;
         summary := {| total_records := totalRecords;
                       non_null_records := Some (Z.of_nat (List.length nonNull));
                       total_value := Some totalValue;
                       has_data := Z.ltb 0 totalRecords |} |}
  | _, _ =>
      {| data := [];
         summary := {| total_records := 0; non_null_records := None;
                       total_value := None; has_data := false |} |}
  end.

(** *** The decoder as the spec describes it *)

(** The non-null entries of the flat array with their flat indices,
    ascending. *)
Fixpoint nonnull_from (i : nat) (vals : list (option Z)) : list (nat * Z) :=
  match vals with
  | [] => []
  | None :: rest => nonnull_from (S i) rest
  | Some v :: rest => (i, v) :: nonnull_from (S i) rest
  end.

Definition nonnull_entries (vals : list (option Z)) : list (nat * Z) :=
  nonnull_from 0 vals.

(** Mixed-radix digits, last dimension fastest: going through the sizes
    from last to first, [coord = temp mod size], [temp = floor(temp / size)]. *)
Fixpoint digits_rev (rsizes : list Z) (temp : Z) : list Z :=
  match rsizes with
  | [] => []
  | s :: rs => (temp mod s) :: digits_rev rs (temp / s)
  end.

Definition coords (sizes : list Z) (f : Z) : list Z := rev (digits_rev (rev sizes) f).

(** A friendly base name: the static dictionary, else the lowercased code. *)
Definition spec_baseName (d : string) : string :=
  match assoc nameMapping d with Some b => b | None => toLowerCase d end.

(** The display name: the dimension's label for the code, else the code. *)
Definition spec_name (d : DimDef) (code : string) : jsval :=
  match cat_label (category d) with
  | Some lm => match assoc lm code with
               | Some l => if String.eqb l "" then JStr code else JStr l
               | None => JStr code
               end
  | None => JStr code
  end.

(** The record the spec expects for flat index [f] and value [v]: for each
    dimension [i], [<baseName>_code] is the code whose [category.index]
    position is the coordinate [i] and [<baseName>_name] its name; [value]
    is [v]; nothing else. *)
Definition record_spec (dims : list (string * DimDef)) (f : nat) (v : Z) (r : record) : Prop :=
  (forall i dimName dimDef, nth_error dims i = Some (dimName, dimDef) ->
     exists code,
       assoc (index (category dimDef)) code
         = Some (nth i (coords (dimensionSizes dims) (Z.of_nat f)) 0) /\
       assoc r (spec_baseName dimName ++ "_code") = Some (JStr code) /\
       assoc r (spec_baseName dimName ++ "_name") = Some (spec_name dimDef code)) /\
  assoc r "value" = Some (JNum v) /\
  List.length r = (2 * List.length dims + 1)%nat.

(** The codes of a dimension are distinct and their [category.index]
    positions [0, 1, ...] follow the object's key order. *)
Definition positions_in_key_order (d : DimDef) : Prop :=
  NoDup (dim_codes d) /\
  map snd (index (category d)) = map Z.of_nat (seq 0 (List.length (index (category d)))).

Definition no_proto_names (dims : list (string * DimDef)) : Prop :=
  Forall (fun d => is_proto_member (fst d) = false
                   /\ Forall (fun c => is_proto_member c = false) (dim_codes (snd d))) dims.

(** The two keys dimension [nm] writes. *)
Definition dim_keys (nm : string) : list string :=
  [spec_baseName nm ++ "_code"; spec_baseName nm ++ "_name"].

Definition keys_of (dims : list (string * DimDef)) : list string :=
  flat_map (fun d => dim_keys (fst d)) dims.

(** *** Key order of a parsed JSON object *)

(** [JSON.parse] builds [category.index] by adding the members in text
    order; [Object.keys] then lists the array-index keys (canonical
    decimal strings below 2^32 - 1) in ascending numeric order, followed by
    the other keys in insertion order. *)
Fixpoint parse_digits (s : string) (acc : Z) : option Z :=
  match s with
  | EmptyString => Some acc
  | String c r =>
      let n := nat_of_ascii c in
      if (Nat.leb 48 n && Nat.leb n 57)%bool
      then parse_digits r (acc * 10 + Z.of_nat (n - 48)) else None
  end.

Definition array_index_value (s : string) : option Z :=
  match s with
  | EmptyString => None
  | String c r =>
      (* canonical: no leading zero, except the key "0" itself *)
      if (Ascii.eqb c "0"%char && negb (String.eqb r ""))%bool then None
      else match parse_digits s 0 with
           | Some n => if Z.ltb n 4294967295 then Some n else None
           | None => None
           end
  end.

Definition is_array_index (s : string) : bool :=
  match array_index_value s with Some _ => true | None => false end.

Fixpoint insert_by_index {A} (kv : string * A) (l : list (string * A)) : list (string * A) :=
  match l with
  | [] => [kv]
  | kv' :: l' =>
      match array_index_value (fst kv), array_index_value (fst kv') with
      | Some a, Some b => if Z.leb a b then kv :: l else kv' :: insert_by_index kv l'
      | _, _ => kv :: l
      end
  end.

Definition js_property_order {A} (members : list (string * A)) : list (string * A) :=
  (fold_right insert_by_index [] (filter (fun kv => is_array_index (fst kv)) members)
   ++ filter (fun kv => negb (is_array_index (fst kv))) members)%list.

(** *** Vocabulary for the validation and usage-window statements *)

(** A value [validateSelection] accepts for a variable whose codes are
    [avail]: a string that is one of the expressions it skips or one of
    the codes. *)
Definition value_ok (avail : list string) (v : jsval) : bool :=
  match v with
  | JStr s => String.eqb s "*" || startsWith s "TOP(" || startsWith s "BOTTOM("
              || startsWith s "RANGE(" || existsb (String.eqb s) avail
  | _ => false
  end.

(** An entry of the translated selection names a dimension of the table
    and all its values are accepted for it. *)
Definition entry_ok (dims : list (string * DimDef)) (e : string * list jsval) : bool :=
  match assoc dims (fst e) with
  | Some d => forallb (value_ok (map fst (index (category d)))) (snd e)
  | None => false
  end.


(** ** [getTableData] *)

Definition nl : string := String (ascii_of_nat 10) EmptyString.

(** [s.substring(0, n)]: the first [n] UTF-16 code units of [s]. A code
    point of four UTF-8 bytes is two code units; cutting between them keeps
    the high surrogate alone, written as its three-byte (WTF-8) form. *)
Definition high_surrogate (b0 b1 b2 : ascii) : string :=
  let top := N.lor (N.shiftl (N.land (N_of b0) 7) 8)
               (N.lor (N.shiftl (N.land (N_of b1) 63) 2) (N.shiftr (N.land (N_of b2) 63) 4)) in
  let hs := (55296 + (top - 64))%N in
  String (ascii_of_N 237)
    (String (ascii_of_N (N.lor 128 (N.land (N.shiftr hs 6) 63)))
       (String (ascii_of_N (N.lor 128 (N.land hs 63))) EmptyString)).

Fixpoint substring0 (n : nat) (s : string) : string :=
  match n, s with
  | O, _ | _, EmptyString => EmptyString
  | S n', String b0 r0 =>
      let v := N_of b0 in
      if (v <? 128)%N then String b0 (substring0 n' r0)
      else if (v <? 224)%N then
        match r0 with
        | String b1 r1 => String b0 (String b1 (substring0 n' r1))
        | EmptyString => String b0 EmptyString
        end
      else if (v <? 240)%N then
        match r0 with
        | String b1 (String b2 r2) => String b0 (String b1 (String b2 (substring0 n' r2)))
        | _ => r0
        end
      else
        match r0 with
        | String b1 (String b2 (String b3 r3)) =>
            match n' with
            | O => high_surrogate b0 b1 b2
            | S n'' => String b0 (String b1 (String b2 (String b3 (substring0 n'' r3))))
            end
        | _ => r0
        end
  end.

(** The response of the [POST] of [getTableData]. *)
Record Response : Type := {
  status : Z;
  statusText : string;
  text : jsres string;          (** [await response.text()] *)
  parsed_json : jsres Dataset   (** [DatasetSchema.parse(await response.json())] *)
}.

(** [response.ok] *)
Definition response_ok (r : Response) : bool := (200 <=? status r) && (status r <=? 299).

(** The [try]/[catch] of the 400 branch: [errorMessage] and
    [troubleshootingTips]. The keywords are ASCII, and an ASCII byte of
    UTF-8 is never part of a longer sequence, so [includes] on
    [toLowerCase] decides as JS does. *)
Definition bad_request_parts (t : jsres string) : string * list string :=
  match t with
  | Throw _ =>
      ("Bad request (400) - Could not parse error details",
       ["Use scb_test_selection to validate your selection";
        "Check the table and selection format"])
  | Ok errorText =>
      let l := toLowerCase errorText in
      if includes l "variable" || includes l "variablecode" then
        ("Invalid variable name or code in selection",
         ["Use scb_get_table_variables to see all available variable names";
          "Check that variable names match exactly (case-sensitive)";
          "Try scb_test_selection to validate your selection first"])
      else if includes l "value" || includes l "valuecode" then
        ("Invalid variable values in selection",
         ["Use scb_get_table_variables with variableName to see valid values";
          "For time data, try formats like " ++ quoted "2024" ++ " or " ++ quoted "2024M12"
            ++ " for monthly";
          "For regions, verify codes with scb_find_region_code"])
      else if includes l "selection" then
        ("Invalid selection format or syntax",
         ["Use format: {" ++ quoted "VariableName" ++ ": [" ++ quoted "value1" ++ ", "
            ++ quoted "value2" ++ "]}";
          "Ensure variable names use proper case (e.g., " ++ quoted "Region" ++ ", not "
            ++ quoted "region" ++ ")";
          "Test your selection with scb_test_selection first"])
      else if includes l "time" || includes l "date" then
        ("Invalid time/date format in selection",
         ["For annual data, use " ++ quoted "2024";
          "For monthly data, use " ++ quoted "2024M12" ++ " format";
          "Check available time values with scb_get_table_variables"])
      else
        ("Bad request (400): " ++ substring0 150 errorText,
         ["Use scb_test_selection to validate your selection";
          "Check variable names and values with scb_get_table_variables"])
  end.

(** [fullError] *)
Definition bad_request_message (t : jsres string) : string :=
  let (errorMessage, troubleshootingTips) := bad_request_parts t in
  match troubleshootingTips with
  | [] => errorMessage
  | _ => errorMessage ++ nl ++ nl ++ "Troubleshooting suggestions:" ++ nl
         ++ join nl (map (fun tip => "• " ++ tip) troubleshootingTips)
  end.

(** [this.rateLimitInfo?.maxCalls || 'unknown'] *)
Definition limit_text (w : window) : string :=
  match rateLimitInfo w with
  | Some r => if Z.eqb (maxCalls r) 0 then "unknown" else Z_to_string (maxCalls r)
  | None => "unknown"
  end.

(** The handling of the [POST] response, [w] being the state after
    [this.requestCount++]. *)
Definition handle_post (w : window) (resp : Response) : jsres Dataset :=
  if response_ok resp then parsed_json resp
  else if Z.eqb (status resp) 429 then Throw "Rate limit exceeded (429). Wait and try again."
  else if Z.eqb (status resp) 403 then
    Throw ("Request forbidden (403). The query may result in too many data cells (limit: "
           ++ limit_text w ++ "). Try using more specific selections.")
  else if Z.eqb (status resp) 400 then Throw (bad_request_message (text resp))
  else Throw ("API request failed: " ++ Z_to_string (status resp) ++ " " ++ statusText resp).

(** [errorMessage] of a failed validation. *)
Definition validation_error_message (v : ValidationResult) : string :=
  "Selection validation failed:" ++ nl ++ join nl (errors v)
  ++ match suggestions v with
     | [] => ""
     | _ => nl ++ nl ++ "Suggestions:" ++ nl ++ join nl (suggestions v)
     end.

(** [getTableData(tableId, selection, lang)]. The first request (the default
    [GET] without a selection, the metadata [GET] of [validateSelection]
    with one) is a [makeRequest] whose admission check sees [cfg1] at
    [tinit1] and [now1] and whose fetch gives [tr]; the [POST] sees [cfg2]
    at [tinit2] and [now2], and [post] is its [fetch] for the body
    [{selection: selectionArray}]: it rejects ([Throw]) or a response
    arrives ([Ok]). The values of [finalSelection] are
    arrays, so [valueCodes] is passed as is. *)
Definition getTableData (bg : string -> string -> jsres jsval) (tableId : string)
    (selection : option (list (string * list string))) (lang : string)
    (cfg1 : config_outcome) (tinit1 now1 : Z) (tr : transport Dataset)
    (cfg2 : config_outcome) (tinit2 now2 : Z)
    (post : list (string * list jsval) -> jsres Response)
    (w : window) : window * jsres Dataset :=
  match selection with
  | None => makeRequest cfg1 tinit1 now1 tr w
  | Some sel =>
      let (w1, md) := makeRequest cfg1 tinit1 now1 tr w in
      let validation := validateSelection bg tableId sel lang md in
      if negb (isValid validation) then (w1, Throw (validation_error_message validation))
      else
        let finalSelection :=
          match translatedSelection validation with
          | Some f => f
          | None => map (fun '(k, vs) => (k, map JStr vs)) sel
          end in
        let (w2, adm) := checkRateLimit cfg2 tinit2 now2 w1 in
        match adm with
        | Throw e => (w2, Throw e)
        | Ok _ =>
            let selectionArray := js_property_order finalSelection in
            match post selectionArray with
            | Throw m => (w2, Throw m)
            | Ok resp =>
                let w3 := recordCall w2 in (w3, handle_post w3 resp)
            end
        end
  end.

(** ** [searchTables]: [URLSearchParams] *)

(** A JS string as a [USVString] (WebIDL): a lone surrogate, [ED A0..BF xx]
    in the three-byte form, becomes U+FFFD. *)
Fixpoint to_usv (s : string) : string :=
  match s with
  | EmptyString => EmptyString
  | String c rest =>
      match rest with
      | String d (String e r) =>
          if (N_of c =? 237)%N && (160 <=? N_of d)%N
          then String (ascii_of_N 239) (String (ascii_of_N 191) (String (ascii_of_N 189)
                 (to_usv r)))
          else String c (to_usv rest)
      | _ => String c (to_usv rest)
      end
  end.

(** Bytes the [application/x-www-form-urlencoded] percent-encode set leaves
    alone: [*], [-], [.], digits, letters and [_]. *)
Definition form_safe (c : ascii) : bool :=
  let n := N_of c in
  (n =? 42)%N || (n =? 45)%N || (n =? 46)%N || ((48 <=? n)%N && (n <=? 57)%N)
  || ((65 <=? n)%N && (n <=? 90)%N) || (n =? 95)%N || ((97 <=? n)%N && (n <=? 122)%N).

(** An upper-case hexadecimal digit. *)
Definition hex_char (n : N) : ascii :=
  if (n <? 10)%N then ascii_of_N (48 + n) else ascii_of_N (55 + n).

(** Percent-encoding of one byte, the space as [+]. *)
Definition form_encode_byte (c : ascii) : string :=
  if form_safe c then String c EmptyString
  else if (N_of c =? 32)%N then "+"
  else String "%"%char (String (hex_char (N_of c / 16)) (String (hex_char (N_of c mod 16))
         EmptyString)).

Fixpoint form_encode (s : string) : string :=
  match s with
  | EmptyString => EmptyString
  | String c r => form_encode_byte c ++ form_encode r
  end.

(** [searchParams.set(name, value)]: the first pair named [name] gets the
    value and the others are removed; without one, the pair is appended. *)
Fixpoint usp_replace (l : list (string * string)) (name value : string)
  : list (string * string) :=
  match l with
  | [] => []
  | (n, v) :: l' =>
      if String.eqb n name
      then (n, value) :: filter (fun p => negb (String.eqb (fst p) name)) l'
      else (n, v) :: usp_replace l' name value
  end.

Definition usp_set (l : list (string * string)) (name value : string)
  : list (string * string) :=
  let name := to_usv name in
  let value := to_usv value in
  if existsb (fun p => String.eqb (fst p) name) l then usp_replace l name value
  else (l ++ [(name, value)])%list.

(** [searchParams.toString()]: the [application/x-www-form-urlencoded]
    serializer. *)
Definition usp_toString (l : list (string * string)) : string :=
  String.concat "&" (map (fun '(n, v) => form_encode n ++ "=" ++ form_encode v) l).

(** The [params] argument of [searchTables]; its numbers are integers. *)
Record SearchParams : Type := {
  query : option string;
  pastDays : option Z;
  includeDiscontinued : option bool;
  pageNumber : option Z;
  pageSize : option Z;
  sp_lang : option string
}.

Definition searchTables_params (params : SearchParams) : list (string * string) :=
  let sp : list (string * string) := [] in
  let sp := match query params with
            | Some q => if String.eqb q "" then sp else usp_set sp "query" q
            | None => sp end in
  let sp := match pastDays params with
            | Some d => if Z.eqb d 0 then sp else usp_set sp "pastDays" (Z_to_string d)
            | None => sp end in
  let sp := match includeDiscontinued params with
            | Some b => usp_set sp "includeDiscontinued" (if b then "true" else "false")
            | None => sp end in
  let sp := match pageNumber params with
            | Some n => if Z.eqb n 0 then sp else usp_set sp "pageNumber" (Z_to_string n)
            | None => sp end in
  let sp := match pageSize params with
            | Some n => if Z.eqb n 0 then sp else usp_set sp "pageSize" (Z_to_string n)
            | None => sp end in
  match sp_lang params with
  | Some l => if String.eqb l "" then sp else usp_set sp "lang" l
  | None => sp
  end.

(** The endpoint [searchTables] requests. *)
Definition searchTables_endpoint (params : SearchParams) : string :=
  "/tables?" ++ usp_toString (searchTables_params params).

(** *** Reading a query string back: the [application/x-www-form-urlencoded]
    parser, up to the final UTF-8 decoding (the bytes it decodes). *)

Fixpoint split_on (c : ascii) (s : string) : list string :=
  match s with
  | EmptyString => [EmptyString]
  | String x r =>
      if Ascii.eqb x c then EmptyString :: split_on c r
      else match split_on c r with
           | [] => [String x EmptyString]
           | p :: ps => String x p :: ps
           end
  end.

(** Split at the first [=]; without one the value is empty. *)
Fixpoint split_eq (s : string) : string * string :=
  match s with
  | EmptyString => (EmptyString, EmptyString)
  | String x r =>
      if Ascii.eqb x "="%char then (EmptyString, r)
      else let (n, v) := split_eq r in (String x n, v)
  end.

Fixpoint plus_to_space (s : string) : string :=
  match s with
  | EmptyString => EmptyString
  | String x r => String (if Ascii.eqb x "+"%char then " "%char else x) (plus_to_space r)
  end.

Definition hex_val (c : ascii) : option N :=
  let n := N_of c in
  if (48 <=? n)%N && (n <=? 57)%N then Some (n - 48)%N
  else if (65 <=? n)%N && (n <=? 70)%N then Some (n - 55)%N
  else if (97 <=? n)%N && (n <=? 102)%N then Some (n - 87)%N
  else None.

Fixpoint percent_decode (s : string) : string :=
  match s with
  | EmptyString => EmptyString
  | String x r =>
      if Ascii.eqb x "%"%char then
        match r with
        | String h1 (String h2 r') =>
            match hex_val h1, hex_val h2 with
            | Some a, Some b => String (ascii_of_N (16 * a + b)) (percent_decode r')
            | _, _ => String x (percent_decode r)
            end
        | _ => String x (percent_decode r)
        end
      else String x (percent_decode r)
  end.

Definition form_parse (s : string) : list (string * string) :=
  map (fun p => let (n, v) := split_eq p in
                (percent_decode (plus_to_space n), percent_decode (plus_to_space v)))
    (filter (fun p => negb (String.eqb p "")) (split_on "&"%char s)).

(** The pair [name=value] when [value] is given. *)
Definition param_if (name : string) (value : option string) : list (string * string) :=
  match value with Some v => [(name, to_usv v)] | None => [] end.

(** ** Concrete inputs *)

(** A behaviour of built-in property reads for concrete runs; none of the
    runs below reaches one. *)
Definition builtin_get_undefined : string -> string -> jsres jsval :=
  fun _ _ => Ok JUndef.

Definition dim_of (lbl : string) (codes : list string) : DimDef :=
  {| label := lbl;
     category := {| index := combine codes (map Z.of_nat (seq 0 (List.length codes)));
                    cat_label := None |} |}.

(** The metadata of the spec's validation example: [Region] and [Kon]. *)
Definition sample_metadata : Dataset :=
  {| ds_id := ["Region"; "Kon"]; ds_label := "Population"; ds_source := None;
     size := [2; 2];
     dimension := Some [("Region", dim_of "region" ["1484"; "0180"]);
                        ("Kon", dim_of "sex" ["1"; "2"])];
     value := None |}.

(** The spec's decoder example: [Region] codes [1484, 0180], [Tid] codes
    [2023, 2024], values [10, null, 30, 40]. *)
Definition example_dims : list (string * DimDef) :=
  [("Region", dim_of "region" ["1484"; "0180"]); ("Tid", dim_of "year" ["2023"; "2024"])].

Definition example_dataset : Dataset :=
  {| ds_id := ["Region"; "Tid"]; ds_label := "Population"; ds_source := None;
     size := [2; 2]; dimension := Some example_dims;
     value := Some [Some 10; None; Some 30; Some 40] |}.

(** Two dimensions whose base names coincide: [Tid] maps to [year] through
    the dictionary and [year] lowercases to [year]. *)
Definition clash_dims : list (string * DimDef) :=
  [("Tid", dim_of "year" ["2024"]); ("year", dim_of "birth year" ["x"])].

Definition clash_dataset : Dataset :=
  {| ds_id := ["Tid"; "year"]; ds_label := "Clash"; ds_source := None;
     size := [1; 1]; dimension := Some clash_dims; value := Some [Some 5] |}.

(** One dimension of two codes and three values. *)
Definition mismatch_dims : list (string * DimDef) :=
  [("Region", dim_of "region" ["1484"; "0180"])].

Definition mismatch_dataset : Dataset :=
  {| ds_id := ["Region"]; ds_label := "Mismatch"; ds_source := None;
     size := [2]; dimension := Some mismatch_dims;
     value := Some [Some 1; Some 2; Some 3] |}.

(** A [Region] index as it arrives in the JSON text, positions in text
    order: [{"0180": 0, "1480": 1}]. *)
Definition region_index_text : list (string * Z) := [("0180", 0); ("1480", 1)].

Definition key_order_dims : list (string * DimDef) :=
  [("Region", {| label := "region";
                 category := {| index := js_property_order region_index_text;
                                cat_label := None |} |})].

Definition key_order_dataset : Dataset :=
  {| ds_id := ["Region"]; ds_label := "Key order"; ds_source := None;
     size := [2]; dimension := Some key_order_dims; value := Some [Some 7; None] |}.

(** Usage-window runs: capacities 2 and 1, a 10 s window. *)
Definition cfg_cap1 : config_outcome := ConfigOk 1 10.

Definition cfg_cap2 : config_outcome := ConfigOk 2 10.

Definition sample_calls : list call :=
  [Call cfg_cap2 0 0 (Delivered (Ok tt)); Call cfg_cap2 1 1 (Delivered (Ok tt));
   Call cfg_cap2 2 2 (Delivered (Ok tt)); Call cfg_cap2 3 20000 (FetchRejects "down")].

(** * Proofs *)

(** ** Usage window *)

Lemma initializeRateLimit_some cfg t w :
  exists r, rateLimitInfo (initializeRateLimit cfg t w) = Some r.
Proof.
  unfold initializeRateLimit; destruct (rateLimitInfo w) eqn:E; simpl; eauto.
Qed.

Lemma initializeRateLimit_inv cfg t w :
  cfg_nonneg cfg -> quota_inv w -> quota_inv (initializeRateLimit cfg t w).
Proof.
  unfold initializeRateLimit, quota_inv; destruct (rateLimitInfo w) eqn:E;
    [rewrite E; auto|].
  destruct cfg; simpl; intros; lia.
Qed.

(** The state after the lazy initialisation step of [checkRateLimit]. *)
Lemma checkRateLimit_init cfg tinit now w :
  checkRateLimit cfg tinit now w
  = checkRateLimit cfg tinit now (initializeRateLimit cfg tinit w).
Proof.
  unfold checkRateLimit, initializeRateLimit.
  destruct (rateLimitInfo w) eqn:E; simpl; rewrite ?E; reflexivity.
Qed.

Lemma checkRateLimit_inv cfg tinit now w :
  cfg_nonneg cfg -> quota_inv w ->
  quota_inv (fst (checkRateLimit cfg tinit now w)) /\
  (snd (checkRateLimit cfg tinit now w) = Ok tt ->
   exists r, rateLimitInfo (fst (checkRateLimit cfg tinit now w)) = Some r /\
             requestCount (fst (checkRateLimit cfg tinit now w)) < maxCalls r).
Proof.
  intros Hc Hw.
  rewrite checkRateLimit_init.
  pose proof (initializeRateLimit_inv cfg tinit w Hc Hw) as Hw1.
  destruct (initializeRateLimit_some cfg tinit w) as [r Hr].
  remember (initializeRateLimit cfg tinit w) as w1 eqn:Ew; clear Ew.
  rename Hr into Hr1.
  unfold checkRateLimit; repeat (rewrite Hr1; simpl).
  unfold quota_inv in Hw1; rewrite Hr1 in Hw1.
  destruct (Z.leb (resetTime r) now) eqn:Er; simpl;
    match goal with |- context [Z.leb (maxCalls r) ?x] =>
      destruct (Z.leb (maxCalls r) x) eqn:Em end; simpl;
    unfold quota_inv; simpl; rewrite ?Hr1;
    (split; [lia|]); try (intros H; discriminate H);
    apply Z.leb_gt in Em; intros _; eexists; split; try reflexivity; eauto; simpl; lia.
Qed.

Lemma recordCall_inv w r :
  rateLimitInfo w = Some r -> 0 <= maxCalls r -> 0 <= requestCount w < maxCalls r ->
  quota_inv (recordCall w).
Proof.
  intros Hr Hm Hc; unfold quota_inv, recordCall; simpl; rewrite Hr; simpl; lia.
Qed.

Lemma run_call_inv c w :
  call_cfg_nonneg c -> quota_inv w -> quota_inv (run_call c w).
Proof.
  destruct c as [cfg tinit now tr]; simpl; intros Hc Hw.
  destruct (checkRateLimit_inv cfg tinit now w Hc Hw) as [H1 H2].
  unfold makeRequest.
  destruct (checkRateLimit cfg tinit now w) as [w1 adm]; simpl in *.
  destruct adm as [[]|m]; [|exact H1].
  destruct tr as [m|res]; simpl; [exact H1|].
  destruct (H2 eq_refl) as [r [Hr Hlt]].
  unfold quota_inv in H1; rewrite Hr in H1.
  apply (recordCall_inv w1 r); [exact Hr | lia | lia].
Qed.

Lemma run_calls_inv cs w :
  Forall call_cfg_nonneg cs -> quota_inv w -> quota_inv (run_calls cs w).
Proof.
  revert w; induction cs as [|c cs IH]; intros w Hcs Hw; simpl; auto.
  inversion Hcs; subst; apply IH; auto using run_call_inv.
Qed.

Lemma new_client_inv t : quota_inv (new_client t).
Proof. reflexivity. Qed.

Lemma checkRateLimit_reset cfg tinit now w r :
  rateLimitInfo (initializeRateLimit cfg tinit w) = Some r -> resetTime r <= now ->
  requestCount (fst (checkRateLimit cfg tinit now w)) = 0 /\
  windowStartTime (fst (checkRateLimit cfg tinit now w)) = now /\
  option_map resetTime (rateLimitInfo (fst (checkRateLimit cfg tinit now w)))
    = Some (now + timeWindow r * 1000) /\
  (snd (checkRateLimit cfg tinit now w) = Ok tt <-> 0 < maxCalls r).
Proof.
  intros Hr Hle.
  rewrite checkRateLimit_init.
  remember (initializeRateLimit cfg tinit w) as w1 eqn:Ew; clear Ew.
  unfold checkRateLimit; repeat (rewrite Hr; simpl).
  apply Z.leb_le in Hle; rewrite Hle; simpl.
  destruct (Z.leb (maxCalls r) 0) eqn:Em; simpl.
  - apply Z.leb_le in Em; repeat split; try discriminate; lia.
  - apply Z.leb_gt in Em; repeat split; auto.
Qed.

Lemma checkRateLimit_synced cfg tinit now w :
  rateLimitInfo w <> None -> window_synced w ->
  rateLimitInfo (fst (checkRateLimit cfg tinit now w)) <> None /\
  window_synced (fst (checkRateLimit cfg tinit now w)).
Proof.
  intros Hn Hs.
  destruct (rateLimitInfo w) as [r|] eqn:Hr; [|congruence].
  unfold checkRateLimit; repeat (rewrite Hr; simpl).
  unfold window_synced in *; rewrite Hr in Hs.
  destruct (Z.leb (resetTime r) now); simpl;
    match goal with |- context [Z.leb (maxCalls r) ?x] =>
      destruct (Z.leb (maxCalls r) x) end; simpl;
    rewrite ?Hr; split; try discriminate; auto; lia.
Qed.

Lemma recordCall_synced w :
  rateLimitInfo w <> None -> window_synced w ->
  rateLimitInfo (recordCall w) <> None /\ window_synced (recordCall w).
Proof.
  unfold window_synced, recordCall; simpl.
  destruct (rateLimitInfo w); simpl; [|congruence]; split; [discriminate|auto].
Qed.

Lemma run_calls_synced cs w :
  rateLimitInfo w <> None -> window_synced w -> window_synced (run_calls cs w).
Proof.
  revert w; induction cs as [|[cfg tinit now tr] cs IH]; intros w Hn Hs; simpl; auto.
  apply IH; unfold makeRequest;
    destruct (checkRateLimit_synced cfg tinit now w Hn Hs) as [H1 H2];
    destruct (checkRateLimit cfg tinit now w) as [w1 [[]|m]]; simpl in *;
    try destruct tr; simpl; auto; apply recordCall_synced; auto.
Qed.

Lemma checkRateLimit_reset_synced cfg tinit now w r :
  rateLimitInfo (initializeRateLimit cfg tinit w) = Some r -> resetTime r <= now ->
  window_synced (fst (checkRateLimit cfg tinit now w)).
Proof.
  intros Hr Hle.
  rewrite checkRateLimit_init.
  remember (initializeRateLimit cfg tinit w) as w1 eqn:Ew; clear Ew.
  unfold checkRateLimit; repeat (rewrite Hr; simpl).
  apply Z.leb_le in Hle; rewrite Hle; simpl.
  destruct (Z.leb (maxCalls r) 0); reflexivity.
Qed.

(** C1 (amended). Under sequential use, every recording directly after its
    own admitted check as [makeRequest] does it, and with a non-negative
    capacity, [requestCount] never exceeds [maxCalls]; and a check made at
    or past [resetTime] first resets [requestCount] to 0, [windowStartTime]
    to [now] and [resetTime] to [now + timeWindow * 1000], then admits iff
    [0 < maxCalls]. *)
Theorem usage_window_sequential_quota (t0 : Z) (calls : list call)
  (Hcfg : Forall call_cfg_nonneg calls) :
  quota_inv (run_calls calls (new_client t0)) /\
  (forall cfg tinit now w r,
     rateLimitInfo (initializeRateLimit cfg tinit w) = Some r -> resetTime r <= now ->
     requestCount (fst (checkRateLimit cfg tinit now w)) = 0 /\
     windowStartTime (fst (checkRateLimit cfg tinit now w)) = now /\
     option_map resetTime (rateLimitInfo (fst (checkRateLimit cfg tinit now w)))
       = Some (now + timeWindow r * 1000) /\
     (snd (checkRateLimit cfg tinit now w) = Ok tt <-> 0 < maxCalls r)).
Proof.
  split.
  - apply run_calls_inv; [exact Hcfg | apply new_client_inv].
  - intros; apply checkRateLimit_reset; assumption.
Qed.

Lemma usage_window_sequential_quota_witness :
  Forall call_cfg_nonneg sample_calls /\
  quota_inv (run_calls sample_calls (new_client 0)).
Proof.
  assert (H : Forall call_cfg_nonneg sample_calls)
    by (repeat constructor; unfold call_cfg_nonneg, cfg_nonneg, cfg_cap2; lia).
  split; [exact H|].
  exact (proj1 (usage_window_sequential_quota 0 sample_calls H)).
Defined.

(** C1 fails for interleaved checks and recordings: two requests in flight
    both pass their check before either records, and the window then holds
    2 recorded calls for a capacity of 1, with no reset in between. *)
Lemma usage_window_interleaving_exceeds :
  snd (checkRateLimit cfg_cap1 0 0 (new_client 0)) = Ok tt /\
  snd (checkRateLimit cfg_cap1 0 0 (run_events [EvCheck cfg_cap1 0 0] (new_client 0)))
    = Ok tt /\
  requestCount (run_events [EvCheck cfg_cap1 0 0; EvCheck cfg_cap1 0 0; EvRecord; EvRecord]
                  (new_client 0)) = 2 /\
  option_map maxCalls
    (rateLimitInfo (run_events [EvCheck cfg_cap1 0 0; EvCheck cfg_cap1 0 0; EvRecord; EvRecord]
                      (new_client 0))) = Some 1.
Proof. vm_compute; repeat split. Qed.

(** C7 (amended). Under sequential use with a non-negative capacity,
    [requestCount <= maxCalls] after every admission check; a check that
    resets the window leaves [resetTime = windowStartTime + timeWindow * 1000];
    and that equality, once it holds, persists through later checks and
    recordings. *)
Theorem usage_window_invariants_sequential (t0 : Z) (calls : list call)
  (Hcfg : Forall call_cfg_nonneg calls) :
  quota_inv (run_calls calls (new_client t0)) /\
  (forall cfg tinit now w r,
     rateLimitInfo (initializeRateLimit cfg tinit w) = Some r -> resetTime r <= now ->
     window_synced (fst (checkRateLimit cfg tinit now w))) /\
  (forall w cs, rateLimitInfo w <> None -> window_synced w ->
     window_synced (run_calls cs w)).
Proof.
  split; [|split].
  - apply run_calls_inv; [exact Hcfg | apply new_client_inv].
  - intros cfg tinit now w r; apply checkRateLimit_reset_synced.
  - intros w cs; apply run_calls_synced.
Qed.

Lemma usage_window_invariants_sequential_witness :
  Forall call_cfg_nonneg sample_calls /\
  quota_inv (run_calls sample_calls (new_client 7)).
Proof.
  assert (H : Forall call_cfg_nonneg sample_calls)
    by (repeat constructor; unfold call_cfg_nonneg, cfg_nonneg, cfg_cap2; lia).
  split; [exact H|].
  exact (proj1 (usage_window_invariants_sequential 7 sample_calls H)).
Defined.

(** C7 fails twice: (1) lazy initialisation sets [resetTime] from the time
    of the first check, while [windowStartTime] keeps the construction
    time: a client built at 0 and first used at 5 ms has
    [resetTime = 10005] and [windowStartTime + 10 s = 10000];
    (2) after the interleaving of [usage_window_interleaving_exceeds], the
    next admission check leaves 2 recorded calls against a capacity of 1. *)
Lemma usage_window_invariants_fail :
  ~ window_synced (fst (checkRateLimit ConfigNotOk 5 5 (new_client 0))) /\
  ~ quota_inv (fst (checkRateLimit cfg_cap1 0 1
       (run_events [EvCheck cfg_cap1 0 0; EvCheck cfg_cap1 0 0; EvRecord; EvRecord]
          (new_client 0)))).
Proof.
  split; intros H.
  - vm_compute in H; discriminate H.
  - unfold quota_inv in H; simpl in H; lia.
Qed.

(** ** Translation and validation *)

Lemma check_values_extends tableId varCode avail values errs sugs r :
  check_values tableId varCode avail values errs sugs = Ok r ->
  exists e s, r = (errs ++ e, sugs ++ s)%list.
Proof.
  revert errs sugs; induction values as [|v values IH]; intros errs sugs H; simpl in H.
  - inversion H; subst; exists [], []; rewrite !app_nil_r; reflexivity.
  - destruct (is_expression v) as [special|m]; simpl in H; [|discriminate H].
    destruct special; [apply IH; exact H|].
    destruct (existsb (js_str_eq v) avail); [apply IH; exact H|].
    destruct (IH _ _ H) as [e [s Hr]]; subst r.
    eexists; eexists; rewrite <- !app_assoc; reflexivity.
Qed.

Lemma check_variables_extends tableId dims entries errs sugs r :
  check_variables tableId dims entries errs sugs = Ok r ->
  exists e s, r = (errs ++ e, sugs ++ s)%list.
Proof.
  revert errs sugs; induction entries as [|[varCode values] entries IH];
    intros errs sugs H; simpl in H.
  - inversion H; subst; exists [], []; rewrite !app_nil_r; reflexivity.
  - destruct (assoc dims varCode) as [varDef|].
    + destruct (check_values tableId varCode _ values errs sugs) as [r1|m] eqn:E;
        simpl in H; [|discriminate H].
      destruct (check_values_extends _ _ _ _ _ _ _ E)
        as [e1 [s1 ->]].
      destruct (IH _ _ H) as [e [s ->]]; simpl.
      eexists; eexists; rewrite <- !app_assoc; reflexivity.
    + destruct (IH _ _ H) as [e [s ->]].
      eexists; eexists; rewrite <- !app_assoc; reflexivity.
Qed.

(** When the [try] block of [validateSelection] completes, a dimension of
    the metadata absent from the translated selection makes the result
    invalid, with one error listing every missing dimension. *)
Lemma validateSelection_missing_reported bg tableId selection lang m dims fin r c :
  finalSelection_of bg selection lang = Ok fin ->
  dimension m = Some dims ->
  validateSelection_try bg tableId selection lang (Ok m) = Ok r ->
  In c (map fst dims) -> ~ In c (map fst fin) ->
  isValid r = false /\ In c (missing_of dims (map fst fin)) /\
  In ("Missing mandatory variables: " ++ join ", " (missing_of dims (map fst fin)))
     (errors r).
Proof.
  intros Hf Hd Hr Hc Hn.
  assert (Hm : In c (missing_of dims (map fst fin))).
  { unfold missing_of; apply filter_In; split; [exact Hc|].
    destruct (existsb (String.eqb c) (map fst fin)) eqn:E; [|reflexivity].
    apply existsb_exists in E as [x [Hx Hcx]].
    apply String.eqb_eq in Hcx; subst x; contradiction. }
  unfold validateSelection_try in Hr; rewrite Hf in Hr; simpl in Hr; rewrite Hd in Hr.
  destruct (missing_of dims (map fst fin)) as [|m0 ms] eqn:EM; [destruct Hm|].
  destruct (check_variables tableId dims fin _ _) as [r1|msg] eqn:Ec;
    simpl in Hr; [|discriminate Hr].
  injection Hr as <-; simpl.
  destruct (check_variables_extends _ _ _ _ _ _ Ec) as [e [s ->]]; simpl.
  split; [reflexivity|]; split; [exact Hm|]; left; reflexivity.
Qed.

(** C3 (code_bug). With [sample_metadata] ([Region], [Kon]) and the
    selection [{"Kon": ["constructor"]}], [Region] is missing, yet the
    result carries one error that does not name it: [valueMapping.Kon]
    inherits [constructor] from [Object.prototype], the translated value is
    the [Object] function, and [value.startsWith] throws inside the [try]
    block, discarding the missing-dimension error. *)
Theorem validateSelection_missing_dimension_lost bg :
  missing_of (match dimension sample_metadata with Some d => d | None => [] end) ["Kon"]
    = ["Region"] /\
  validateSelection bg "TAB1" [("Kon", ["constructor"])] "en" (Ok sample_metadata)
  = {| isValid := false;
       errors := ["Validation failed: value.startsWith is not a function"];
       suggestions := ["Try checking if the table ID is correct with scb_get_table_info"];
       translatedSelection := None |} /\
  Forall (fun e => includes e "Region" = false)
    (errors (validateSelection bg "TAB1" [("Kon", ["constructor"])] "en"
               (Ok sample_metadata))).
Proof. split; [reflexivity|]; split; [reflexivity|]; repeat constructor. Qed.

(** C4. [validateSelection] always returns a [ValidationResult]: an
    exception raised in its [try] block (by the metadata fetch or by the
    processing) becomes a result with [isValid = false], exactly one error
    and one suggestion; in particular a failed metadata fetch does. *)
Theorem validateSelection_never_throws bg tableId selection lang meta :
  (forall msg, validateSelection_try bg tableId selection lang meta = Throw msg ->
     validateSelection bg tableId selection lang meta
     = {| isValid := false; errors := ["Validation failed: " ++ msg];
          suggestions := ["Try checking if the table ID is correct with scb_get_table_info"];
          translatedSelection := None |}) /\
  (forall msg, meta = Throw msg ->
     isValid (validateSelection bg tableId selection lang meta) = false /\
     List.length (errors (validateSelection bg tableId selection lang meta)) = 1%nat /\
     List.length (suggestions (validateSelection bg tableId selection lang meta)) = 1%nat).
Proof.
  split.
  - intros msg H; unfold validateSelection; rewrite H; reflexivity.
  - intros msg ->; unfold validateSelection, validateSelection_try.
    destruct (finalSelection_of bg selection lang); simpl; auto.
Qed.

Lemma validateSelection_never_throws_witness :
  isValid (validateSelection builtin_get_undefined "TAB1" [("region", ["1484"])] "en"
             (Throw "Rate limit exceeded (429). Wait and try again.")) = false /\
  List.length (errors (validateSelection builtin_get_undefined "TAB1" [("region", ["1484"])] "en"
             (Throw "Rate limit exceeded (429). Wait and try again."))) = 1%nat /\
  List.length (suggestions (validateSelection builtin_get_undefined "TAB1" [("region", ["1484"])]
             "en" (Throw "Rate limit exceeded (429). Wait and try again."))) = 1%nat.
Proof.
  apply (proj2 (validateSelection_never_throws builtin_get_undefined "TAB1"
                  [("region", ["1484"])] "en"
                  (Throw "Rate limit exceeded (429). Wait and try again."))
           "Rate limit exceeded (429). Wait and try again.").
  reflexivity.
Defined.

(** C6 (amended). [translatedSelection] is returned, valid or not, whenever
    the checks run to completion; the metadata-unavailable early return and
    the caught-exception path return none. *)
Theorem validateSelection_translated_when_checked bg tableId selection lang meta :
  (forall fin m dims,
     finalSelection_of bg selection lang = Ok fin -> meta = Ok m ->
     dimension m = Some dims ->
     (exists r, validateSelection_try bg tableId selection lang meta = Ok r) ->
     translatedSelection (validateSelection bg tableId selection lang meta) = Some fin) /\
  (forall m, meta = Ok m -> dimension m = None ->
     translatedSelection (validateSelection bg tableId selection lang meta) = None) /\
  (forall msg, validateSelection_try bg tableId selection lang meta = Throw msg ->
     translatedSelection (validateSelection bg tableId selection lang meta) = None).
Proof.
  split; [|split].
  - intros fin m dims Hf -> Hd [r Hr].
    unfold validateSelection; rewrite Hr.
    unfold validateSelection_try in Hr; rewrite Hf in Hr; simpl in Hr; rewrite Hd in Hr.
    destruct (check_variables _ _ _ _ _); simpl in Hr; [|discriminate Hr].
    injection Hr as <-; reflexivity.
  - intros m -> Hd; unfold validateSelection, validateSelection_try.
    destruct (finalSelection_of bg selection lang); simpl; [rewrite Hd|]; reflexivity.
  - intros msg H; unfold validateSelection; rewrite H; reflexivity.
Qed.

Lemma validateSelection_translated_when_checked_witness :
  translatedSelection (validateSelection builtin_get_undefined "TAB1" [("region", ["9999"])]
                         "en" (Ok sample_metadata))
  = Some [("Region", [JStr "9999"])].
Proof.
  apply (proj1 (validateSelection_translated_when_checked builtin_get_undefined "TAB1"
                  [("region", ["9999"])] "en" (Ok sample_metadata))
           [("Region", [JStr "9999"])] sample_metadata
           [("Region", dim_of "region" ["1484"; "0180"]); ("Kon", dim_of "sex" ["1"; "2"])]);
    try reflexivity.
  eexists; reflexivity.
Defined.

(** C6 fails on the caught-exception path: when the metadata fetch throws,
    the result has no [translatedSelection]. *)
Lemma validateSelection_no_translation_on_failure :
  translatedSelection (validateSelection builtin_get_undefined "TAB1" [("region", ["9999"])]
                         "en" (Throw "Rate limit exceeded (429). Wait and try again."))
  = None.
Proof. reflexivity. Qed.

(** C8 (code_bug). The dictionaries are plain objects, so a key naming an
    [Object.prototype] member hits the inherited member: the unknown key
    ["constructor"] is not passed through but becomes the source text of
    the [Object] function; the value ["constructor"] translates to the
    [Object] function itself, and translating that again throws. *)
Theorem translators_inherited_keys bg :
  translateCommonVariables [("constructor", ["1"])] "en"
    = [("function Object() { [native code] }", ["1"])] /\
  translateCommonValues bg [JStr "constructor"] "Kon" = Ok [JBuiltin "Object"] /\
  translateCommonValues bg [JBuiltin "Object"] "Kon"
    = Throw "value.toLowerCase is not a function".
Proof. repeat split; reflexivity. Qed.

(** C9. Two keys mapping to one canonical code collapse into one entry
    holding the values of the later key. *)
Theorem translateCommonVariables_collision {A} (v1 v2 : A) lang :
  translateCommonVariables [("county", v1); ("municipality", v2)] lang = [("Region", v2)] /\
  translateCommonVariables [("year", v1); ("month", v2)] lang = [("Tid", v2)].
Proof. split; reflexivity. Qed.

(** ** Decoder *)

(** *** Strings as lists of characters *)

Lemma list_ascii_of_string_app s t :
  list_ascii_of_string (s ++ t) = (list_ascii_of_string s ++ list_ascii_of_string t)%list.
Proof. induction s as [|c s IH]; simpl; [reflexivity | rewrite IH; reflexivity]. Qed.

Lemma list_ascii_of_string_length s :
  List.length (list_ascii_of_string s) = String.length s.
Proof. induction s as [|c s IH]; simpl; auto. Qed.

Lemma list_ascii_of_string_inj s t :
  list_ascii_of_string s = list_ascii_of_string t -> s = t.
Proof.
  intros H; rewrite <- (string_of_list_ascii_of_string s),
    <- (string_of_list_ascii_of_string t), H; reflexivity.
Qed.

Lemma app_eq_same_tail_length {A} (l1 l2 t1 t2 : list A) :
  (l1 ++ t1 = l2 ++ t2)%list -> List.length t1 = List.length t2 -> l1 = l2 /\ t1 = t2.
Proof.
  intros H Ht.
  assert (Hl : List.length l1 = List.length l2).
  { apply (f_equal (@List.length A)) in H; rewrite !length_app in H; lia. }
  revert l2 H Hl; induction l1 as [|a l1 IH]; intros [|b l2] H Hl; simpl in *;
    try discriminate Hl; auto.
  injection H as -> H; injection Hl as Hl.
  destruct (IH l2 H Hl) as [-> ->]; auto.
Qed.

Lemma string_app_same_suffix_length s1 s2 t1 t2 :
  s1 ++ t1 = s2 ++ t2 -> String.length t1 = String.length t2 -> s1 = s2 /\ t1 = t2.
Proof.
  intros H Ht.
  apply (f_equal list_ascii_of_string) in H; rewrite !list_ascii_of_string_app in H.
  destruct (app_eq_same_tail_length _ _ _ _ H) as [H1 H2];
    [rewrite !list_ascii_of_string_length; exact Ht|].
  split; apply list_ascii_of_string_inj; assumption.
Qed.

Lemma code_key_inj s1 s2 : s1 ++ "_code" = s2 ++ "_code" -> s1 = s2.
Proof. intros H; apply (string_app_same_suffix_length _ _ _ _ H); reflexivity. Qed.

Lemma name_key_inj s1 s2 : s1 ++ "_name" = s2 ++ "_name" -> s1 = s2.
Proof. intros H; apply (string_app_same_suffix_length _ _ _ _ H); reflexivity. Qed.

Lemma code_name_keys_differ s1 s2 : s1 ++ "_code" <> s2 ++ "_name".
Proof.
  intros H; destruct (string_app_same_suffix_length _ _ _ _ H) as [_ H2];
    [reflexivity | discriminate H2].
Qed.

Lemma dim_key_not_value s t :
  String.length t = 5%nat -> t <> "value" -> s ++ t <> "value".
Proof.
  intros Hl Hv H; change "value" with ("" ++ "value") in H.
  destruct (string_app_same_suffix_length _ _ _ _ H) as [_ H2];
    [rewrite Hl; reflexivity | exact (Hv H2)].
Qed.

Lemma dim_key_not_proto s t :
  String.length t = 5%nat -> t <> "oto__" -> s ++ t <> "__proto__".
Proof.
  intros Hl Hv H; change "__proto__" with ("__pr" ++ "oto__") in H.
  destruct (string_app_same_suffix_length _ _ _ _ H) as [_ H2];
    [rewrite Hl; reflexivity | exact (Hv H2)].
Qed.

(** *** Objects as association lists *)

Lemma assoc_none {A} (o : list (string * A)) k :
  ~ In k (map fst o) -> assoc o k = None.
Proof.
  induction o as [|[k' v'] o IH]; simpl; intros Hn; auto.
  destruct (String.eqb_spec k k'); [subst; exfalso; auto | apply IH; auto].
Qed.

Lemma assoc_In {A} (o : list (string * A)) k v :
  assoc o k = Some v -> In (k, v) o.
Proof.
  induction o as [|[k' v'] o IH]; simpl; intros H; [discriminate H|].
  destruct (String.eqb_spec k k'); [injection H as ->; subst; auto | auto].
Qed.

Lemma obj_update_fresh {A} (o : list (string * A)) k v :
  ~ In k (map fst o) -> obj_update o k v = None.
Proof.
  induction o as [|[k' v'] o IH]; simpl; intros Hn; auto.
  destruct (String.eqb_spec k k'); [subst; exfalso; auto|].
  rewrite IH; auto.
Qed.

Lemma obj_set_fresh {A} (o : list (string * A)) k v :
  ~ In k (map fst o) -> k <> "__proto__" -> obj_set o k v = (o ++ [(k, v)])%list.
Proof.
  intros Hn Hp; unfold obj_set.
  destruct (String.eqb_spec k "__proto__"); [contradiction|].
  rewrite obj_update_fresh; auto.
Qed.

Lemma assoc_snoc {A} (o : list (string * A)) k v k' :
  assoc (o ++ [(k, v)])%list k' =
  match assoc o k' with Some x => Some x | None => if String.eqb k' k then Some v else None end.
Proof.
  induction o as [|[k1 v1] o IH]; simpl; [destruct (String.eqb k' k); reflexivity|].
  destruct (String.eqb k' k1); auto.
Qed.

Lemma inherited_get_other k : is_proto_member k = false -> inherited_get k = JUndef.
Proof.
  unfold is_proto_member, inherited_get; intros H.
  apply orb_false_iff in H as [H H3]; apply orb_false_iff in H as [H1 H2].
  rewrite H1, H2, H3; reflexivity.
Qed.

(** *** Base names and display names *)

Lemma getDimensionBaseName_spec nm :
  is_proto_member nm = false -> js_to_string (getDimensionBaseName nm) = spec_baseName nm.
Proof.
  intros Hp; unfold getDimensionBaseName, lit_get, spec_baseName.
  destruct (assoc nameMapping nm) as [b|] eqn:E.
  - apply assoc_In in E; simpl in E.
    repeat (destruct E as [E|E]; [injection E as _ <-; reflexivity|]); contradiction.
  - rewrite inherited_get_other by exact Hp; reflexivity.
Qed.

Lemma display_name_spec d c :
  is_proto_member c = false ->
  (let lbl := match cat_label (category d) with
              | Some lm => lit_get lm (js_to_string (JStr c))
              | None => JStr c
              end in
   if truthy lbl then lbl else JStr c) = spec_name d c.
Proof.
  intros Hp; unfold spec_name; simpl.
  destruct (cat_label (category d)) as [lm|]; simpl;
    [|destruct (String.eqb c ""); reflexivity].
  unfold lit_get; destruct (assoc lm c) as [l|].
  - simpl; destruct (String.eqb l ""); reflexivity.
  - rewrite inherited_get_other by exact Hp; reflexivity.
Qed.

(** *** The index loop *)

Lemma fill_record_prefix dims post sizes spost k t rec :
  (k <= List.length dims)%nat -> List.length sizes = List.length dims ->
  fill_record (dims ++ post) (sizes ++ spost) k t rec = fill_record dims sizes k t rec.
Proof.
  revert t rec; induction k as [|i IH]; intros t rec Hk Hs; simpl; [reflexivity|].
  rewrite nth_error_app1 by lia.
  destruct (nth_error dims i) as [[nm dd]|]; [|reflexivity].
  rewrite app_nth1 by lia; apply IH; lia.
Qed.

Lemma digits_rev_length rs t : List.length (digits_rev rs t) = List.length rs.
Proof. revert t; induction rs as [|s rs IH]; intros t; simpl; auto. Qed.

Lemma coords_length sizes f : List.length (coords sizes f) = List.length sizes.
Proof. unfold coords; rewrite length_rev, digits_rev_length, length_rev; reflexivity. Qed.

Lemma coords_snoc sizes s f :
  coords (sizes ++ [s])%list f = (coords sizes (f / s) ++ [f mod s])%list.
Proof. unfold coords; rewrite rev_app_distr; reflexivity. Qed.

Lemma dimensionSizes_snoc dims d :
  dimensionSizes (dims ++ [d])%list = (dimensionSizes dims ++ [Z.of_nat (List.length (dim_codes (snd d)))])%list.
Proof. unfold dimensionSizes; rewrite map_app; reflexivity. Qed.

Lemma dimensionSizes_length dims : List.length (dimensionSizes dims) = List.length dims.
Proof. unfold dimensionSizes; apply length_map. Qed.

Lemma nth_error_snoc_cases {A} (l : list A) x i y :
  nth_error (l ++ [x])%list i = Some y ->
  ((i < List.length l)%nat /\ nth_error l i = Some y) \/ (i = List.length l /\ y = x).
Proof.
  intros H; destruct (Nat.lt_ge_cases i (List.length l)) as [Hi|Hi].
  - left; rewrite nth_error_app1 in H by exact Hi; auto.
  - right; rewrite nth_error_app2 in H by exact Hi.
    destruct (i - List.length l)%nat as [|j] eqn:E; simpl in H.
    + injection H as ->; split; [lia | reflexivity].
    + destruct j; discriminate H.
Qed.

Lemma keys_of_snoc dims d :
  keys_of (dims ++ [d])%list = (keys_of dims ++ dim_keys (fst d))%list.
Proof. unfold keys_of; rewrite flat_map_app; reflexivity. Qed.

Lemma assoc_app {A} (l1 l2 : list (string * A)) k :
  assoc (l1 ++ l2)%list k = match assoc l1 k with Some v => Some v | None => assoc l2 k end.
Proof.
  induction l1 as [|[k1 v1] l1 IH]; simpl; [reflexivity|].
  destruct (String.eqb k k1); auto.
Qed.

Lemma keys_of_In K dims :
  In K (keys_of dims) ->
  exists nm dd, In (nm, dd) dims /\
    (K = spec_baseName nm ++ "_code" \/ K = spec_baseName nm ++ "_name").
Proof.
  unfold keys_of; rewrite in_flat_map; intros [[nm dd] [Hin HK]].
  exists nm, dd; split; [exact Hin|]; simpl in HK; intuition.
Qed.

Lemma dim_keys_not_in_others nm dims :
  ~ In (spec_baseName nm) (map (fun d => spec_baseName (fst d)) dims) ->
  ~ In (spec_baseName nm ++ "_code") (keys_of dims) /\
  ~ In (spec_baseName nm ++ "_name") (keys_of dims).
Proof.
  intros Hn; split; intros HK; apply keys_of_In in HK as (nm' & dd' & Hin & [HK|HK]);
    try solve [exact (code_name_keys_differ _ _ HK)
              | exact (code_name_keys_differ _ _ (eq_sym HK))];
    apply Hn, in_map_iff; exists (nm', dd'); split; auto.
  - symmetry; exact (code_key_inj _ _ HK).
  - symmetry; exact (name_key_inj _ _ HK).
Qed.

Lemma fill_record_spec dims : forall t rec,
  0 <= t ->
  Forall (fun s => 0 < s) (dimensionSizes dims) ->
  NoDup (map (fun d => spec_baseName (fst d)) dims) ->
  no_proto_names dims ->
  (forall K, In K (keys_of dims) -> ~ In K (map fst rec)) ->
  let R := fill_record dims (dimensionSizes dims) (List.length dims) (Some t) rec in
  (forall i nm dd, nth_error dims i = Some (nm, dd) ->
     exists code,
       nth_error (dim_codes dd) (Z.to_nat (nth i (coords (dimensionSizes dims) t) 0)) = Some code /\
       assoc R (spec_baseName nm ++ "_code") = Some (JStr code) /\
       assoc R (spec_baseName nm ++ "_name") = Some (spec_name dd code)) /\
  (forall K, ~ In K (keys_of dims) -> assoc R K = assoc rec K) /\
  (forall K, In K (map fst R) -> In K (map fst rec) \/ In K (keys_of dims)) /\
  List.length R = (List.length rec + 2 * List.length dims)%nat.
Proof.
  induction dims as [|[nm dd] pre IH] using rev_ind;
    intros t rec Ht Hpos Hnd Hnp Hfresh R.
  { subst R; simpl; split; [intros [|i]; discriminate|].
    split; [reflexivity|]; split; [auto | lia]. }
  set (s := Z.of_nat (List.length (dim_codes dd))).
  unfold dimensionSizes in Hpos; rewrite map_app in Hpos; fold (dimensionSizes pre) in Hpos.
  apply Forall_app in Hpos as [Hpos Hs]; inversion Hs as [|? ? Hs0 _]; subst; fold s in Hs0.
  rewrite map_app in Hnd; simpl in Hnd.
  apply NoDup_remove in Hnd as [Hnd Hnin]; rewrite app_nil_r in Hnd, Hnin.
  unfold no_proto_names in Hnp; apply Forall_app in Hnp as [Hnp Hnp1].
  inversion Hnp1 as [|? ? [Hnmp Hcodes] _]; subst; simpl in Hnmp, Hcodes.
  assert (Hm : 0 <= t mod s < s) by (apply Z.mod_pos_bound; lia).
  destruct (nth_error (dim_codes dd) (Z.to_nat (t mod s))) as [c|] eqn:Ec;
    [| apply nth_error_None, Nat2Z.inj_le in Ec; rewrite Z2Nat.id in Ec by lia; lia].
  assert (Hc : is_proto_member c = false)
    by (rewrite Forall_forall in Hcodes; apply Hcodes; eapply nth_error_In; eauto).
  set (K1 := spec_baseName nm ++ "_code"); set (K2 := spec_baseName nm ++ "_name").
  set (rec2 := (rec ++ [(K1, JStr c); (K2, spec_name dd c)])%list).
  assert (HK1 : In K1 (keys_of (pre ++ [(nm, dd)])))
    by (rewrite keys_of_snoc; apply in_or_app; right; left; reflexivity).
  assert (HK2 : In K2 (keys_of (pre ++ [(nm, dd)])))
    by (rewrite keys_of_snoc; apply in_or_app; right; right; left; reflexivity).
  assert (HR : R = fill_record pre (dimensionSizes pre) (List.length pre) (Some (t / s)) rec2).
  { subst R; rewrite dimensionSizes_snoc, length_app, Nat.add_1_r.
    cbn [fill_record].
    rewrite nth_error_app2, Nat.sub_diag by lia; cbn iota beta.
    change (Z.of_nat (List.length (dim_codes (snd (nm, dd))))) with s.
    rewrite app_nth2, dimensionSizes_length, Nat.sub_diag
      by (rewrite dimensionSizes_length; lia); simpl nth.
    unfold js_mod, js_floor_div; replace (Z.eqb s 0) with false by (symmetry; apply Z.eqb_neq; lia).
    simpl nth_error; cbn iota beta; unfold js_index; rewrite Ec.
    pose proof (display_name_spec dd c Hc) as Hn; cbv zeta in Hn; rewrite Hn; clear Hn.
    rewrite getDimensionBaseName_spec by exact Hnmp; fold K1 K2.
    rewrite (obj_set_fresh rec K1) by first [exact (Hfresh K1 HK1) | apply dim_key_not_proto; [reflexivity | discriminate]].
    rewrite obj_set_fresh.
    2: { rewrite map_app; intros Hin; apply in_app_or in Hin as [Hin|[Hin|[]]];
         [exact (Hfresh K2 HK2 Hin) | exact (code_name_keys_differ _ _ Hin)]. }
    2: { apply dim_key_not_proto; [reflexivity | discriminate]. }
    rewrite <- app_assoc; apply fill_record_prefix;
      [lia | apply dimensionSizes_length].
  }
  destruct (dim_keys_not_in_others nm pre Hnin) as [HK1p HK2p]; fold K1 K2 in HK1p, HK2p.
  assert (Hfresh2 : forall K, In K (keys_of pre) -> ~ In K (map fst rec2)).
  { intros K HK Hin; unfold rec2 in Hin; rewrite map_app in Hin.
    apply in_app_or in Hin as [Hin|[Hin|[Hin|[]]]]; subst.
    - apply (Hfresh K); [rewrite keys_of_snoc; apply in_or_app; left; exact HK | exact Hin].
    - exact (HK1p HK).
    - exact (HK2p HK). }
  destruct (IH (t / s) rec2) as (IHa & IHb & IHc & IHd); auto.
  { apply Z.div_pos; lia. }
  assert (Hrec1 : assoc rec K1 = None) by (apply assoc_none, Hfresh, HK1).
  assert (Hrec2 : assoc rec K2 = None) by (apply assoc_none, Hfresh, HK2).
  assert (H12 : K2 <> K1) by (intros H; exact (code_name_keys_differ _ _ (eq_sym H))).
  rewrite HR; split; [|split; [|split]].
  - intros i nm0 dd0 Hi; apply nth_error_snoc_cases in Hi as [[Hi Hi']|[-> Heq]].
    + destruct (IHa i nm0 dd0 Hi') as (code & E1 & E2 & E3); exists code.
      rewrite dimensionSizes_snoc, coords_snoc, app_nth1
        by (rewrite coords_length, dimensionSizes_length; lia).
      auto.
    + injection Heq as -> ->; exists c.
      rewrite dimensionSizes_snoc, coords_snoc, app_nth2, coords_length, dimensionSizes_length,
        Nat.sub_diag by (rewrite coords_length, dimensionSizes_length; lia).
      split; [exact Ec|]; fold K1 K2.
      rewrite (IHb K1 HK1p), (IHb K2 HK2p); unfold rec2; rewrite !assoc_app, Hrec1, Hrec2.
      simpl; rewrite String.eqb_refl.
      destruct (String.eqb_spec K2 K1); [contradiction|]; rewrite String.eqb_refl; auto.
  - intros K HK; rewrite keys_of_snoc in HK.
    assert (HKp : ~ In K (keys_of pre)) by (intros H; apply HK, in_or_app; auto).
    rewrite (IHb K HKp); unfold rec2; rewrite assoc_app.
    destruct (assoc rec K); [reflexivity|]; simpl.
    destruct (String.eqb_spec K K1) as [->|]; [exfalso; apply HK, in_or_app; right; left; reflexivity|].
    destruct (String.eqb_spec K K2) as [->|]; [exfalso; apply HK, in_or_app; right; right; left; reflexivity|].
    reflexivity.
  - intros K HK; rewrite keys_of_snoc.
    destruct (IHc K HK) as [HK'|HK']; [|right; apply in_or_app; auto].
    unfold rec2 in HK'; rewrite map_app in HK'; apply in_app_or in HK' as [HK'|HK']; [auto|].
    right; apply in_or_app; right; exact HK'.
  - rewrite IHd; unfold rec2; rewrite !length_app; simpl; lia.
Qed.

Lemma positions_assoc_from (l : list (string * Z)) m k c :
  NoDup (map fst l) -> map snd l = map Z.of_nat (seq m (List.length l)) ->
  nth_error (map fst l) k = Some c -> assoc l c = Some (Z.of_nat (m + k)).
Proof.
  revert m k; induction l as [|[c0 v0] l IH]; intros m k Hnd Hs Hk;
    [destruct k; discriminate Hk|].
  simpl in Hs; injection Hs as Hv Hs; inversion Hnd as [|? ? Hc0 Hnd']; subst.
  destruct k as [|k]; simpl in Hk |- *.
  - injection Hk as <-; rewrite String.eqb_refl; f_equal; lia.
  - destruct (String.eqb_spec c c0) as [->|_].
    + exfalso; apply Hc0; eapply nth_error_In; eauto.
    + rewrite (IH (S m) k Hnd' Hs Hk); f_equal; lia.
Qed.

Lemma positions_assoc d k c :
  positions_in_key_order d -> nth_error (dim_codes d) k = Some c ->
  assoc (index (category d)) c = Some (Z.of_nat k).
Proof.
  intros [Hnd Hs] Hk; apply (positions_assoc_from _ 0 k c Hnd Hs Hk).
Qed.

Lemma digits_rev_nonneg rs t :
  Forall (fun s => 0 < s) rs -> 0 <= t -> Forall (fun x => 0 <= x) (digits_rev rs t).
Proof.
  revert t; induction rs as [|s rs IH]; intros t Hs Ht; simpl; [constructor|].
  inversion Hs; subst; constructor.
  - apply Z.mod_pos_bound; lia.
  - apply IH; auto; apply Z.div_pos; lia.
Qed.

Lemma coords_nth_nonneg sizes f i :
  Forall (fun s => 0 < s) sizes -> 0 <= f -> 0 <= nth i (coords sizes f) 0.
Proof.
  intros Hs Hf; destruct (Nat.lt_ge_cases i (List.length (coords sizes f))) as [Hi|Hi].
  - assert (Hn : Forall (fun x => 0 <= x) (coords sizes f)).
    { unfold coords; apply Forall_rev, digits_rev_nonneg; [apply Forall_rev, Hs | exact Hf]. }
    rewrite Forall_forall in Hn; apply Hn, nth_In, Hi.
  - rewrite nth_overflow by exact Hi; lia.
Qed.

Lemma decode_values_spec dims vals :
  forall start,
  Forall (fun s => 0 < s) (dimensionSizes dims) ->
  NoDup (map (fun d => spec_baseName (fst d)) dims) ->
  no_proto_names dims ->
  Forall (fun d => positions_in_key_order (snd d)) dims ->
  Forall2 (fun r e => record_spec dims (fst e) (snd e) r)
    (decode_values dims (dimensionSizes dims) vals start) (nonnull_from start vals).
Proof.
  induction vals as [|[v|] vals IH]; intros start Hpos Hnd Hnp Hord; simpl; auto.
  constructor; [|auto].
  destruct (fill_record_spec dims (Z.of_nat start) [] ltac:(lia) Hpos Hnd Hnp
              ltac:(intros K _ []))
    as (Ha & Hb & Hc & Hd).
  set (R := fill_record dims (dimensionSizes dims) (List.length dims) (Some (Z.of_nat start)) [])
    in *.
  assert (Hv : ~ In "value" (map fst R)).
  { intros Hin; destruct (Hc _ Hin) as [[]|HK].
    apply keys_of_In in HK as (nm & dd & _ & [HK|HK]); symmetry in HK; revert HK;
      apply dim_key_not_value; first [reflexivity | discriminate]. }
  rewrite obj_set_fresh by (first [exact Hv | discriminate]).
  assert (HRv : assoc R "value" = None) by (apply assoc_none, Hv).
  simpl; split; [|split].
  - intros i nm dd Hi; destruct (Ha i nm dd Hi) as (code & E1 & E2 & E3).
    exists code; rewrite !assoc_app, E2, E3; split; [|auto].
    rewrite (positions_assoc dd _ code) by
      (first [exact E1 | rewrite Forall_forall in Hord;
              exact (Hord (nm, dd) (nth_error_In _ _ Hi))]).
    rewrite Z2Nat.id; [reflexivity | apply coords_nth_nonneg; [exact Hpos | lia]].
  - rewrite assoc_app, HRv; reflexivity.
  - rewrite length_app, Hd; simpl; lia.
Qed.

Lemma product_pos_factors (l : list Z) :
  Forall (fun s => 0 <= s) l -> 0 < fold_right Z.mul 1 l -> Forall (fun s => 0 < s) l.
Proof.
  induction l as [|a l IH]; intros Hnn Hp; simpl in *; [constructor|].
  inversion Hnn as [|? ? Ha Hl]; subst.
  assert (0 <= fold_right Z.mul 1 l).
  { clear -Hl; induction l as [|b l IH]; simpl; [lia|].
    inversion Hl; subst; apply Z.mul_nonneg_nonneg; auto. }
  destruct (Z.eq_dec a 0) as [->|Ha0]; [lia|].
  constructor; [lia|]; apply IH; auto; nia.
Qed.

Lemma dimensionSizes_nonneg dims : Forall (fun s => 0 <= s) (dimensionSizes dims).
Proof. unfold dimensionSizes; apply Forall_map, Forall_forall; intros; lia. Qed.

Lemma decode_values_length dims sizes vals start :
  List.length (decode_values dims sizes vals start) = List.length (nonnull_from start vals).
Proof.
  revert start; induction vals as [|[v|] vals IH]; intros start; simpl; auto.
Qed.

Lemma transformToStructuredData_present ds dims vals :
  dimension ds = Some dims -> value ds = Some vals ->
  data (transformToStructuredData ds) = decode_values dims (dimensionSizes dims) vals 0 /\
  total_records (summary (transformToStructuredData ds))
    = Z.of_nat (List.length (decode_values dims (dimensionSizes dims) vals 0)) /\
  has_data (summary (transformToStructuredData ds))
    = Z.ltb 0 (Z.of_nat (List.length (decode_values dims (dimensionSizes dims) vals 0))).
Proof.
  intros Hd Hv; unfold transformToStructuredData; rewrite Hv, Hd; auto.
Qed.

(** A [category.index] read from JSON text in position order can still
    come out of [Object.keys] in another order: in [{"0180": 0, "1480": 1}]
    the key [1480] is an array index and is listed first, so the record
    for flat index 0 carries [1480], whose position is 1. *)
Lemma transformToStructuredData_key_order :
  assoc region_index_text "1480" = Some 1 /\
  data (transformToStructuredData key_order_dataset) =
    [[("region_code", JStr "1480"); ("region_name", JStr "1480"); ("value", JNum 7)]].
Proof. split; reflexivity. Qed.

(** ** Claim C2 *)

(** C2 (amended): when the value array's length is the product of the
    dimension sizes, the base names of the dimensions are distinct, no
    dimension name or code is a member of [Object.prototype], and each
    [category.index] lists its positions [0, 1, ...] in key order, the
    decoder returns exactly one record per non-null entry, in ascending
    flat-index order; the record of flat index [f] maps
    [<baseName>_code] to the code at the mixed-radix coordinate of [f]
    (last dimension fastest), [<baseName>_name] to its label or the code,
    and [value] to the entry, and has no other field. *)
Theorem transformToStructuredData_decodes ds dims vals :
  dimension ds = Some dims -> value ds = Some vals ->
  Z.of_nat (List.length vals) = fold_right Z.mul 1 (dimensionSizes dims) ->
  NoDup (map (fun d => spec_baseName (fst d)) dims) ->
  no_proto_names dims ->
  Forall (fun d => positions_in_key_order (snd d)) dims ->
  Forall2 (fun r e => record_spec dims (fst e) (snd e) r)
    (data (transformToStructuredData ds)) (nonnull_entries vals).
Proof.
  intros Hd Hv Hlen Hnd Hnp Hord.
  destruct (transformToStructuredData_present ds dims vals Hd Hv) as [-> _].
  destruct vals as [|v0 vals]; [constructor|].
  apply decode_values_spec; auto.
  apply product_pos_factors; [apply dimensionSizes_nonneg | rewrite <- Hlen; simpl; lia].
Qed.

Lemma transformToStructuredData_decodes_witness :
  Forall2 (fun r e => record_spec example_dims (fst e) (snd e) r)
    (data (transformToStructuredData example_dataset))
    (nonnull_entries [Some 10; None; Some 30; Some 40]).
Proof.
  apply (transformToStructuredData_decodes example_dataset example_dims);
    [reflexivity | reflexivity | reflexivity | | |].
  - vm_compute; repeat constructor; simpl; intuition discriminate.
  - vm_compute; repeat constructor.
  - vm_compute; repeat constructor; simpl; intuition discriminate.
Defined.

(** C2 (counterexample): [Tid] and [year] both have the base name [year];
    the value array has the product length, no name is a prototype
    member and the positions follow key order, yet the single record
    keeps [year_code = 2024] from [Tid] and loses the code [x] of the
    [year] dimension. *)
Lemma transformToStructuredData_basename_clash :
  dimension clash_dataset = Some clash_dims /\ value clash_dataset = Some [Some 5] /\
  Z.of_nat 1 = fold_right Z.mul 1 (dimensionSizes clash_dims) /\
  no_proto_names clash_dims /\
  Forall (fun d => positions_in_key_order (snd d)) clash_dims /\
  ~ Forall2 (fun r e => record_spec clash_dims (fst e) (snd e) r)
      (data (transformToStructuredData clash_dataset)) (nonnull_entries [Some 5]).
Proof.
  split; [reflexivity|]; split; [reflexivity|]; split; [reflexivity|].
  split; [vm_compute; repeat constructor|].
  split; [vm_compute; repeat constructor; simpl; intuition discriminate|].
  intros H; vm_compute in H.
  inversion H as [|r e l l' [Ha _] _]; subst.
  destruct (Ha 1%nat "year" (dim_of "birth year" ["x"]) eq_refl) as (code & E1 & E2 & _).
  vm_compute in E2; injection E2 as <-; vm_compute in E1; discriminate E1.
Qed.

(** ** Claim C5 *)

(** C5 (counterexample): one dimension of two codes and a value array of
    three entries; the decoder reports nothing and returns three records,
    the third wrapping around to the first code, with [has_data = true]. *)
Lemma transformToStructuredData_mismatch_silent :
  Z.of_nat (List.length [Some 1; Some 2; Some 3]) <> fold_right Z.mul 1 (dimensionSizes mismatch_dims) /\
  value mismatch_dataset = Some [Some 1; Some 2; Some 3] /\
  data (transformToStructuredData mismatch_dataset) =
    [[("region_code", JStr "1484"); ("region_name", JStr "1484"); ("value", JNum 1)];
     [("region_code", JStr "0180"); ("region_name", JStr "0180"); ("value", JNum 2)];
     [("region_code", JStr "1484"); ("region_name", JStr "1484"); ("value", JNum 3)]] /\
  has_data (summary (transformToStructuredData mismatch_dataset)) = true.
Proof.
  split; [vm_compute; intros H; discriminate H|].
  split; [reflexivity|]; split; reflexivity.
Qed.

(** C5 (amended): the decoder checks no length. For a value array of any
    length it returns one record per non-null entry, [total_records] is
    their number and [has_data] says whether it is positive; when every
    dimension has at least one code (and the names satisfy the conditions
    of the decoding theorem), each record follows the same mixed-radix
    rule, the leading coordinate wrapping around past the end. *)
Theorem transformToStructuredData_no_length_check ds dims vals :
  dimension ds = Some dims -> value ds = Some vals ->
  List.length (data (transformToStructuredData ds)) = List.length (nonnull_entries vals) /\
  total_records (summary (transformToStructuredData ds))
    = Z.of_nat (List.length (nonnull_entries vals)) /\
  has_data (summary (transformToStructuredData ds))
    = Z.ltb 0 (Z.of_nat (List.length (nonnull_entries vals))) /\
  (Forall (fun s => 0 < s) (dimensionSizes dims) ->
   NoDup (map (fun d => spec_baseName (fst d)) dims) ->
   no_proto_names dims ->
   Forall (fun d => positions_in_key_order (snd d)) dims ->
   Forall2 (fun r e => record_spec dims (fst e) (snd e) r)
     (data (transformToStructuredData ds)) (nonnull_entries vals)).
Proof.
  intros Hd Hv.
  destruct (transformToStructuredData_present ds dims vals Hd Hv) as (-> & -> & ->).
  unfold nonnull_entries; rewrite decode_values_length.
  split; [reflexivity|]; split; [reflexivity|]; split; [reflexivity|].
  intros; apply decode_values_spec; auto.
Qed.

Lemma transformToStructuredData_no_length_check_witness :
  List.length (data (transformToStructuredData mismatch_dataset))
    = List.length (nonnull_entries [Some 1; Some 2; Some 3]) /\
  total_records (summary (transformToStructuredData mismatch_dataset)) = 3 /\
  has_data (summary (transformToStructuredData mismatch_dataset)) = true /\
  Forall2 (fun r e => record_spec mismatch_dims (fst e) (snd e) r)
    (data (transformToStructuredData mismatch_dataset))
    (nonnull_entries [Some 1; Some 2; Some 3]).
Proof.
  destruct (transformToStructuredData_no_length_check mismatch_dataset mismatch_dims
              [Some 1; Some 2; Some 3] eq_refl eq_refl) as (H1 & H2 & H3 & H4).
  split; [exact H1|]; split; [exact H2|]; split; [exact H3|].
  apply H4.
  - vm_compute; repeat constructor.
  - vm_compute; repeat constructor; simpl; intuition discriminate.
  - vm_compute; repeat constructor.
  - vm_compute; repeat constructor; simpl; intuition discriminate.
Defined.

(** ** Claim C10 *)

(** C10: when the value array or the dimension map is missing, the decoder
    returns no records, [total_records = 0] and [has_data = false]. *)
Theorem transformToStructuredData_missing_parts ds :
  value ds = None \/ dimension ds = None ->
  data (transformToStructuredData ds) = [] /\
  total_records (summary (transformToStructuredData ds)) = 0 /\
  has_data (summary (transformToStructuredData ds)) = false.
Proof.
  intros H; unfold transformToStructuredData.
  destruct H as [H|H]; rewrite H; [auto|].
  destruct (value ds); auto.
Qed.

Lemma transformToStructuredData_missing_parts_witness :
  data (transformToStructuredData sample_metadata) = [] /\
  total_records (summary (transformToStructuredData sample_metadata)) = 0 /\
  has_data (summary (transformToStructuredData sample_metadata)) = false.
Proof.
  apply (transformToStructuredData_missing_parts sample_metadata); left; reflexivity.
Defined.

(** ** Further properties of the client *)

(** *** Decoder summary *)

Lemma obj_update_keys {A} (o o' : list (string * A)) k v :
  obj_update o k v = Some o' -> map fst o' = map fst o.
Proof.
  revert o'; induction o as [|[k1 v1] o IH]; intros o' H; simpl in H; [discriminate H|].
  destruct (String.eqb_spec k k1).
  - injection H as <-; reflexivity.
  - destruct (obj_update o k v) as [o''|] eqn:E; [|discriminate H].
    injection H as <-; simpl; rewrite (IH o'' eq_refl); reflexivity.
Qed.

Lemma obj_update_none_notin {A} (o : list (string * A)) k v :
  obj_update o k v = None -> ~ In k (map fst o).
Proof.
  induction o as [|[k1 v1] o IH]; simpl; intros H; [auto|].
  destruct (String.eqb_spec k k1); [discriminate H|].
  destruct (obj_update o k v); [discriminate H|].
  intros [Hk|Hk]; [congruence | exact (IH eq_refl Hk)].
Qed.

Lemma obj_set_keys {A} (o : list (string * A)) k v K :
  In K (map fst (obj_set o k v)) -> In K (map fst o) \/ K = k.
Proof.
  unfold obj_set; destruct (String.eqb k "__proto__"); [auto|].
  destruct (obj_update o k v) as [o'|] eqn:E.
  - rewrite (obj_update_keys _ _ _ _ E); auto.
  - rewrite map_app, in_app_iff; simpl; intuition.
Qed.






(** *** Name translation *)

Lemma mappedKey_canonical v :
  In v (map snd variableMapping) -> mappedKey v = JStr v.
Proof.
  intros H; simpl in H; repeat (destruct H as [<-|H]; [reflexivity|]); contradiction.
Qed.

Lemma variableMapping_value_nonempty k v :
  assoc variableMapping k = Some v -> In v (map snd variableMapping) /\ v <> "".
Proof.
  intros H; apply assoc_In in H; split.
  - apply in_map_iff; exists (k, v); auto.
  - simpl in H; repeat (destruct H as [H|H]; [injection H as _ <-; discriminate|]); contradiction.
Qed.

(** The key [mappedKey] gives: a canonical name from the dictionary, or the
    key itself. *)
Lemma mappedKey_cases k :
  is_proto_member k = false -> is_proto_member (toLowerCase k) = false ->
  (exists v, mappedKey k = JStr v /\ In v (map snd variableMapping)) \/
  (mappedKey k = JStr k /\ assoc variableMapping k = None
   /\ assoc variableMapping (toLowerCase k) = None).
Proof.
  intros Hk Hl; unfold mappedKey, lit_get.
  destruct (assoc variableMapping k) as [v|] eqn:E1.
  - destruct (variableMapping_value_nonempty _ _ E1) as [Hin Hne].
    left; exists v; split; [|exact Hin].
    simpl; destruct (String.eqb_spec v ""); [contradiction | reflexivity].
  - rewrite (inherited_get_other k Hk); cbn [truthy].
    destruct (assoc variableMapping (toLowerCase k)) as [v|] eqn:E2.
    + destruct (variableMapping_value_nonempty _ _ E2) as [Hin Hne].
      left; exists v; split; [|exact Hin].
      simpl; destruct (String.eqb_spec v ""); [contradiction | reflexivity].
    + rewrite (inherited_get_other _ Hl); right; auto.
Qed.

Lemma mappedKey_idem k :
  is_proto_member k = false -> is_proto_member (toLowerCase k) = false ->
  mappedKey (js_to_string (mappedKey k)) = mappedKey k.
Proof.
  intros Hk Hl; destruct (mappedKey_cases k Hk Hl) as [(v & Hv & Hin)|(Hv & _)];
    rewrite Hv; simpl; [apply mappedKey_canonical, Hin | exact Hv].
Qed.

Lemma mappedKey_not_proto k :
  is_proto_member k = false -> is_proto_member (toLowerCase k) = false ->
  js_to_string (mappedKey k) <> "__proto__".
Proof.
  intros Hk Hl; destruct (mappedKey_cases k Hk Hl) as [(v & Hv & Hin)|(Hv & _)];
    rewrite Hv; simpl.
  - intros ->; simpl in Hin; repeat (destruct Hin as [Hin|Hin]; [discriminate Hin|]); exact Hin.
  - intros ->; discriminate Hk.
Qed.

Lemma obj_set_nodup {A} (o : list (string * A)) k v :
  NoDup (map fst o) -> NoDup (map fst (obj_set o k v)).
Proof.
  intros Hnd; unfold obj_set; destruct (String.eqb k "__proto__"); [exact Hnd|].
  destruct (obj_update o k v) as [o'|] eqn:E.
  - rewrite (obj_update_keys _ _ _ _ E); exact Hnd.
  - apply obj_update_none_notin in E; rewrite map_app; simpl.
    apply NoDup_app; [exact Hnd | repeat constructor; auto |].
    intros x Hx [<-|[]]; exact (E Hx).
Qed.

(** The output of a [fold_left] of [obj_set] from [[]]: distinct keys, each
    the image of an input key. *)
Lemma fold_obj_set_keys {A} (f : string -> string) (l : list (string * A)) acc :
  NoDup (map fst acc) ->
  NoDup (map fst (fold_left (fun acc '(key, values) => obj_set acc (f key) values) l acc)) /\
  (forall K, In K (map fst (fold_left (fun acc '(key, values) => obj_set acc (f key) values) l acc)) ->
     In K (map fst acc) \/ exists kv, In kv l /\ K = f (fst kv)).
Proof.
  revert acc; induction l as [|[k v] l IH]; intros acc Hnd; simpl; [auto|].
  destruct (IH (obj_set acc (f k) v) (obj_set_nodup _ _ _ Hnd)) as [H1 H2].
  split; [exact H1|]; intros K HK.
  destruct (H2 K HK) as [HK2|(kv & Hin & ->)]; [|right; eauto].
  apply obj_set_keys in HK2 as [HK2| ->]; [auto | right; exists (k, v); auto].
Qed.

(** Replaying a duplicate-free list whose keys [f] fixes rebuilds it. *)
Lemma fold_obj_set_fixed {A} (f : string -> string) (l : list (string * A)) acc :
  NoDup (map fst (acc ++ l)) ->
  (forall kv, In kv l -> f (fst kv) = fst kv /\ fst kv <> "__proto__") ->
  fold_left (fun acc '(key, values) => obj_set acc (f key) values) l acc = (acc ++ l)%list.
Proof.
  revert acc; induction l as [|[k v] l IH]; intros acc Hnd Hf; simpl; [rewrite app_nil_r; auto|].
  destruct (Hf (k, v) (or_introl eq_refl)) as [Hk Hp]; simpl in Hk, Hp; rewrite Hk.
  assert (Hnin : ~ In k (map fst acc)).
  { rewrite map_app in Hnd; simpl in Hnd.
    apply NoDup_remove_2 in Hnd; intros H; apply Hnd, in_or_app; auto. }
  rewrite obj_set_fresh by assumption.
  rewrite IH, <- app_assoc; [reflexivity | rewrite <- app_assoc; exact Hnd |].
  intros kv Hin; apply Hf; right; exact Hin.
Qed.

(** [translateCommonVariables] is idempotent on selections whose keys, as
    given and lowercased, name no [Object.prototype] member; such a key
    that is not in the dictionary, as given or lowercased, passes through
    unchanged. *)
Theorem translateCommonVariables_idempotent {A} (selection : list (string * A)) lang :
  Forall (fun kv => is_proto_member (fst kv) = false
                    /\ is_proto_member (toLowerCase (fst kv)) = false) selection ->
  translateCommonVariables (translateCommonVariables selection lang) lang
    = translateCommonVariables selection lang /\
  (forall key values, In (key, values) selection ->
     assoc variableMapping key = None -> assoc variableMapping (toLowerCase key) = None ->
     js_to_string (mappedKey key) = key).
Proof.
  intros Hall; rewrite Forall_forall in Hall; split.
  - set (f := fun k => js_to_string (mappedKey k)).
    set (O := translateCommonVariables selection lang).
    destruct (fold_obj_set_keys f selection [] (NoDup_nil _)) as [Hnd Hkeys].
    unfold translateCommonVariables at 1; fold f.
    change (fold_left (fun acc '(key, values) => obj_set acc (f key) values) O [] = O).
    apply (fold_obj_set_fixed f O []); [exact Hnd|].
    intros [K v] Hin; simpl.
    assert (HK : In K (map fst O)) by (apply in_map_iff; exists (K, v); auto).
    destruct (Hkeys K HK) as [[]|([k v'] & Hkv & ->)].
    destruct (Hall _ Hkv) as [Hk Hl]; simpl in Hk, Hl.
    split; [unfold f; rewrite mappedKey_idem by assumption; reflexivity|].
    apply mappedKey_not_proto; assumption.
  - intros key values Hin E1 E2.
    destruct (Hall _ Hin) as [Hk Hl]; simpl in Hk, Hl.
    unfold mappedKey, lit_get; rewrite E1, (inherited_get_other _ Hk); cbn [truthy].
    rewrite E2, (inherited_get_other _ Hl); reflexivity.
Qed.

Lemma translateCommonVariables_idempotent_witness :
  translateCommonVariables (translateCommonVariables [("år", 1%nat); ("Kommun", 2%nat); ("Foo", 3%nat)] "sv") "sv"
    = translateCommonVariables [("år", 1%nat); ("Kommun", 2%nat); ("Foo", 3%nat)] "sv".
Proof.
  apply (translateCommonVariables_idempotent [("år", 1%nat); ("Kommun", 2%nat); ("Foo", 3%nat)] "sv").
  repeat constructor.
Defined.

(** *** Value translation *)

Lemma assoc_map_JStr (m : list (string * string)) k :
  assoc (map (fun '(a, b) => (a, JStr b)) m) k = option_map JStr (assoc m k).
Proof.
  induction m as [|[a b] m IH]; simpl; [reflexivity|].
  destruct (String.eqb k a); [reflexivity | exact IH].
Qed.

(** Every value of the [valueMapping] tables. *)
Lemma valueMapping_outputs vn m k v :
  assoc valueMapping vn = Some m -> assoc m k = Some v ->
  In v ["tot"; "TotSA"; "2024"; "1"; "2"; "*"].
Proof.
  intros H1 H2; apply assoc_In in H1, H2; simpl in H1.
  repeat (destruct H1 as [H1|H1];
    [injection H1 as _ <-; simpl in H2;
     repeat (destruct H2 as [H2|H2]; [injection H2 as _ <-; simpl; tauto|]); contradiction|]).
  contradiction.
Qed.

Lemma valueMapping_output_nonempty vn m k v :
  assoc valueMapping vn = Some m -> assoc m k = Some v -> v <> "".
Proof.
  intros H1 H2 ->; apply (valueMapping_outputs _ _ _ _ H1) in H2; simpl in H2.
  repeat (destruct H2 as [H2|H2]; [discriminate H2|]); exact H2.
Qed.

(** One lookup [m && m[lv] ? m[lv] : miss] in a [valueMapping] table. *)
Lemma mapping_lookup bg vn lv :
  is_proto_member vn = false -> is_proto_member lv = false ->
  (if truthy (valueMapping_get vn) then
     x <- js_get bg (valueMapping_get vn) lv ;;
     if truthy x then (y <- js_get bg (valueMapping_get vn) lv ;; Ok (Some y))
     else Ok None
   else Ok None)
  = Ok (option_map JStr (match assoc valueMapping vn with Some m => assoc m lv | None => None end)).
Proof.
  intros Hv Hl; unfold valueMapping_get.
  destruct (assoc valueMapping vn) as [m|] eqn:E.
  - simpl; rewrite assoc_map_JStr.
    destruct (assoc m lv) as [v|] eqn:E2; simpl.
    + destruct (String.eqb_spec v "") as [Hv0|]; [|reflexivity].
      exfalso; exact (valueMapping_output_nonempty _ _ _ _ E E2 Hv0).
    + rewrite (inherited_get_other _ Hl); reflexivity.
  - rewrite (inherited_get_other _ Hv); reflexivity.
Qed.

(** [translateValue] on a string, for a variable name and a lowercased value
    that name no [Object.prototype] member. *)
Lemma translateValue_str bg vn s :
  is_proto_member vn = false -> is_proto_member (toLowerCase s) = false ->
  translateValue bg vn (JStr s) = Ok (JStr
    match match assoc valueMapping vn with Some m => assoc m (toLowerCase s) | None => None end with
    | Some v => v
    | None =>
        match assoc [("total", "tot"); ("all", "*"); ("totalt", "tot"); ("alla", "*")]
                (toLowerCase s) with
        | Some v => v
        | None =>
            if String.eqb vn "Tid" && is_year s then s
            else if String.eqb vn "Tid" && is_year_month s then replace_first_dash s
            else s
        end
    end).
Proof.
  intros Hv Hl; unfold translateValue; cbn [js_toLowerCase bind].
  rewrite (mapping_lookup bg vn _ Hv Hl), (mapping_lookup bg "*" _ eq_refl Hl).
  change (assoc valueMapping "*")
    with (Some [("total", "tot"); ("all", "*"); ("totalt", "tot"); ("alla", "*")]).
  cbn [bind].
  destruct (match assoc valueMapping vn with Some m => assoc m (toLowerCase s) | None => None end);
    cbn [option_map]; [reflexivity|].
  destruct (assoc [("total", "tot"); ("all", "*"); ("totalt", "tot"); ("alla", "*")]
              (toLowerCase s)); cbn [option_map]; [reflexivity|].
  destruct (String.eqb vn "Tid" && is_year s); [reflexivity|].
  destruct (String.eqb vn "Tid" && is_year_month s); reflexivity.
Qed.

(** The values the tables produce translate to themselves. *)
Lemma fixed_output_stable bg vn v :
  is_proto_member vn = false -> In v ["tot"; "TotSA"; "2024"; "1"; "2"; "*"] ->
  translateValue bg vn (JStr v) = Ok (JStr v).
Proof.
  intros Hv Hin; simpl in Hin.
  repeat (destruct Hin as [<-|Hin];
    [rewrite translateValue_str by (assumption || reflexivity);
     destruct (assoc valueMapping vn) as [m|] eqn:E;
     [apply assoc_In in E; simpl in E;
      repeat (destruct E as [E|E]; [injection E as <- <-; reflexivity|]); contradiction
     | destruct (String.eqb vn "Tid"); reflexivity]|]).
  contradiction.
Qed.

Lemma digit_cases a :
  is_digit a = true ->
  In a ["0"; "1"; "2"; "3"; "4"; "5"; "6"; "7"; "8"; "9"]%char.
Proof.
  destruct a as [[] [] [] [] [] [] [] []]; intros H; try discriminate H; simpl; tauto.
Qed.

Lemma digit_not_dash c : is_digit c = true -> Ascii.eqb c "-"%char = false.
Proof.
  intros H; destruct (Ascii.eqb_spec c "-"%char) as [->|]; [discriminate H | reflexivity].
Qed.

(** A [YYYY-MM] time value, once rewritten to [YYYYMM], is left alone. *)
Lemma translateValue_year_month bg s :
  is_year_month s = true ->
  translateValue bg "Tid" (JStr (replace_first_dash s)) = Ok (JStr (replace_first_dash s)).
Proof.
  destruct s as [|a [|b [|c [|d [|h [|e [|f [|]]]]]]]]; intros H; try discriminate H.
  simpl in H.
  apply andb_prop in H as [H Hf]; apply andb_prop in H as [H He];
  apply andb_prop in H as [H Hh]; apply andb_prop in H as [H Hd];
  apply andb_prop in H as [H Hc]; apply andb_prop in H as [Ha Hb].
  apply Ascii.eqb_eq in Hh; subst h.
  cbn [replace_first_dash]; rewrite (digit_not_dash a Ha), (digit_not_dash b Hb),
    (digit_not_dash c Hc), (digit_not_dash d Hd); cbn [Ascii.eqb Bool.eqb].
  apply digit_cases in Ha; simpl in Ha.
  repeat (destruct Ha as [<-|Ha];
    [rewrite translateValue_str by (reflexivity || (simpl; reflexivity)); simpl;
     rewrite Hb, Hc, Hd, He, Hf; reflexivity|]).
  contradiction.
Qed.

Lemma translateValue_idem bg vn s :
  is_proto_member vn = false -> is_proto_member (toLowerCase s) = false ->
  exists t, translateValue bg vn (JStr s) = Ok (JStr t)
            /\ translateValue bg vn (JStr t) = Ok (JStr t).
Proof.
  intros Hv Hl; eexists; split; [rewrite translateValue_str by assumption; reflexivity|].
  destruct (assoc valueMapping vn) as [m|] eqn:E0;
    [destruct (assoc m (toLowerCase s)) as [v|] eqn:E1|].
  - apply fixed_output_stable; [exact Hv | exact (valueMapping_outputs _ _ _ _ E0 E1)].
  - destruct (assoc [("total", "tot"); ("all", "*"); ("totalt", "tot"); ("alla", "*")]
                (toLowerCase s)) as [v|] eqn:E2.
    + apply fixed_output_stable; [exact Hv|]; apply assoc_In in E2; simpl in E2.
      repeat (destruct E2 as [E2|E2]; [injection E2 as _ <-; simpl; tauto|]); contradiction.
    + destruct (String.eqb vn "Tid" && is_year s) eqn:Ey;
        [|destruct (String.eqb vn "Tid" && is_year_month s) eqn:Eym].
      * rewrite translateValue_str, E0, E1, E2, Ey by assumption; reflexivity.
      * apply andb_prop in Eym as [Et Eym]; apply String.eqb_eq in Et; subst vn.
        apply translateValue_year_month, Eym.
      * rewrite translateValue_str, E0, E1, E2, Ey, Eym by assumption; reflexivity.
  - destruct (assoc [("total", "tot"); ("all", "*"); ("totalt", "tot"); ("alla", "*")]
                (toLowerCase s)) as [v|] eqn:E2.
    + apply fixed_output_stable; [exact Hv|]; apply assoc_In in E2; simpl in E2.
      repeat (destruct E2 as [E2|E2]; [injection E2 as _ <-; simpl; tauto|]); contradiction.
    + destruct (String.eqb vn "Tid" && is_year s) eqn:Ey;
        [|destruct (String.eqb vn "Tid" && is_year_month s) eqn:Eym].
      * rewrite translateValue_str, E0, E2, Ey by assumption; reflexivity.
      * apply andb_prop in Eym as [Et Eym]; apply String.eqb_eq in Et; subst vn.
        apply translateValue_year_month, Eym.
      * rewrite translateValue_str, E0, E2, Ey, Eym by assumption; reflexivity.
Qed.

(** [translateCommonValues] never throws on a list of strings whose
    lowercased forms, like the variable name, name no [Object.prototype]
    member; it returns as many strings, and translating them again changes
    nothing. *)
Theorem translateCommonValues_idempotent bg vn ss :
  is_proto_member vn = false ->
  Forall (fun s => is_proto_member (toLowerCase s) = false) ss ->
  exists ts, List.length ts = List.length ss /\
    translateCommonValues bg (map JStr ss) vn = Ok (map JStr ts) /\
    translateCommonValues bg (map JStr ts) vn = Ok (map JStr ts).
Proof.
  intros Hv Hall; induction Hall as [|s ss Hs _ IH].
  - exists []; auto.
  - destruct IH as (ts & Hlen & H1 & H2).
    destruct (translateValue_idem bg vn s Hv Hs) as (t & Ht1 & Ht2).
    exists (t :: ts); unfold translateCommonValues in *; simpl.
    rewrite Ht1, H1, Ht2, H2; auto.
Qed.

Lemma translateCommonValues_idempotent_witness :
  translateCommonValues builtin_get_undefined (map JStr ["Men"; "Total"; "2023-05"; "x"]) "Kon"
    = Ok (map JStr ["1"; "tot"; "2023-05"; "x"]) /\
  translateCommonValues builtin_get_undefined (map JStr ["Latest"; "2023-05"]) "Tid"
    = Ok (map JStr ["2024"; "2023M05"]) /\
  exists ts, List.length ts = 4%nat /\
    translateCommonValues builtin_get_undefined (map JStr ["Men"; "Total"; "2023-05"; "x"]) "Kon"
      = Ok (map JStr ts) /\
    translateCommonValues builtin_get_undefined (map JStr ts) "Kon" = Ok (map JStr ts).
Proof.
  split; [reflexivity|]; split; [reflexivity|].
  apply (translateCommonValues_idempotent builtin_get_undefined "Kon" ["Men"; "Total"; "2023-05"; "x"]);
    [reflexivity | repeat constructor].
Defined.

(** *** Selection validation *)

Lemma js_str_eq_JStr s : js_str_eq (JStr s) = String.eqb s.
Proof. reflexivity. Qed.

Lemma check_values_all_ok tableId varCode avail values errs sugs :
  forallb (value_ok avail) values = true ->
  check_values tableId varCode avail values errs sugs = Ok (errs, sugs).
Proof.
  induction values as [|v values IH]; intros H; [reflexivity|].
  cbn [forallb] in H; apply andb_prop in H as [Hv H].
  destruct v as [| |s| | | |]; try discriminate Hv.
  cbn [check_values is_expression bind]; unfold value_ok in Hv.
  destruct (String.eqb s "*" || startsWith s "TOP(" || startsWith s "BOTTOM("
            || startsWith s "RANGE("); [apply IH, H|].
  rewrite js_str_eq_JStr; simpl in Hv; rewrite Hv; apply IH, H.
Qed.

Lemma check_values_no_new_error tableId varCode avail values errs sugs r :
  check_values tableId varCode avail values errs sugs = Ok r -> fst r = errs ->
  forallb (value_ok avail) values = true.
Proof.
  revert errs sugs; induction values as [|v values IH]; intros errs sugs H He; [reflexivity|].
  destruct v as [| |s| | | |]; cbn [check_values is_expression bind] in H; try discriminate H.
  cbn [forallb]; unfold value_ok at 1.
  destruct (String.eqb s "*" || startsWith s "TOP(" || startsWith s "BOTTOM("
            || startsWith s "RANGE("); [simpl; exact (IH _ _ H He)|].
  rewrite js_str_eq_JStr in H; simpl.
  destruct (existsb (String.eqb s) avail); [exact (IH _ _ H He)|].
  exfalso; apply check_values_extends in H as (e & s' & ->); simpl in He.
  apply (f_equal (@List.length string)) in He; rewrite !length_app in He; simpl in He; lia.
Qed.

Lemma check_variables_all_ok tableId dims entries errs sugs :
  forallb (entry_ok dims) entries = true ->
  check_variables tableId dims entries errs sugs = Ok (errs, sugs).
Proof.
  revert errs sugs; induction entries as [|[varCode values] entries IH];
    intros errs sugs H; [reflexivity|].
  cbn [forallb] in H; apply andb_prop in H as [Hv H]; unfold entry_ok in Hv; simpl in Hv.
  simpl; destruct (assoc dims varCode) as [d|]; [|discriminate Hv].
  rewrite check_values_all_ok by exact Hv; simpl; apply IH, H.
Qed.

Lemma check_variables_no_new_error tableId dims entries errs sugs r :
  check_variables tableId dims entries errs sugs = Ok r -> fst r = errs ->
  forallb (entry_ok dims) entries = true.
Proof.
  revert errs sugs; induction entries as [|[varCode values] entries IH];
    intros errs sugs H He; [reflexivity|].
  simpl in H; cbn [forallb]; unfold entry_ok at 1; simpl.
  destruct (assoc dims varCode) as [d|].
  - destruct (check_values tableId varCode (map fst (index (category d))) values errs sugs)
      as [r1|msg] eqn:E1; simpl in H; [|discriminate H].
    destruct (check_values_extends _ _ _ _ _ _ _ E1) as (e1 & s1 & Er1).
    destruct (check_variables_extends _ _ _ _ _ _ H) as (e2 & s2 & Er2).
    assert (He1 : e1 = []).
    { rewrite Er2, Er1 in He; simpl in He; rewrite <- app_assoc in He.
      apply (f_equal (@List.length string)) in He; rewrite !length_app in He.
      destruct e1; [reflexivity | simpl in He; lia]. }
    subst e1; rewrite app_nil_r in Er1.
    rewrite (check_values_no_new_error _ _ _ _ _ _ _ E1) by (rewrite Er1; reflexivity).
    apply (IH _ _ H); rewrite He, Er1; reflexivity.
  - exfalso; apply check_variables_extends in H as (e & s' & ->); simpl in He.
    apply (f_equal (@List.length string)) in He; rewrite !length_app in He; simpl in He; lia.
Qed.

(** A selection validated against a table with dimensions passes exactly
    when its translation succeeds, names every dimension, and every entry
    names a dimension and has only accepted values ([*], [TOP(...)],
    [BOTTOM(...)], [RANGE(...)] or a code of the dimension); a passing
    selection gets no errors and no suggestions. *)
Theorem validateSelection_valid_iff bg tableId selection lang m dims :
  dimension m = Some dims ->
  (isValid (validateSelection bg tableId selection lang (Ok m)) = true <->
   exists final, finalSelection_of bg selection lang = Ok final /\
     missing_of dims (map fst final) = [] /\ forallb (entry_ok dims) final = true) /\
  (forall final, finalSelection_of bg selection lang = Ok final ->
     missing_of dims (map fst final) = [] -> forallb (entry_ok dims) final = true ->
     validateSelection bg tableId selection lang (Ok m)
       = {| isValid := true; errors := []; suggestions := [];
            translatedSelection := Some final |}).
Proof.
  intros Hd.
  assert (Hok : forall final, finalSelection_of bg selection lang = Ok final ->
     missing_of dims (map fst final) = [] -> forallb (entry_ok dims) final = true ->
     validateSelection bg tableId selection lang (Ok m)
       = {| isValid := true; errors := []; suggestions := [];
            translatedSelection := Some final |}).
  { intros final Hf Hm Hall; unfold validateSelection, validateSelection_try.
    rewrite Hf; simpl; rewrite Hd, Hm, check_variables_all_ok by exact Hall; reflexivity. }
  split; [split|exact Hok].
  - unfold validateSelection, validateSelection_try.
    destruct (finalSelection_of bg selection lang) as [final|msg]; simpl; [|discriminate].
    rewrite Hd.
    destruct (check_variables tableId dims final _ _) as [r|msg] eqn:E; simpl; [|discriminate].
    destruct (fst r) as [|e0 es] eqn:Er; [intros _|discriminate].
    destruct (check_variables_extends _ _ _ _ _ _ E) as (e & s & Er2).
    rewrite Er2 in Er; simpl in Er.
    destruct (missing_of dims (map fst final)) as [|m0 ms] eqn:Em; [|discriminate Er].
    exists final; repeat split; [exact Em|].
    apply (check_variables_no_new_error _ _ _ _ _ _ E); rewrite Er2; simpl; exact Er.
  - intros (final & Hf & Hm & Hall); rewrite (Hok final Hf Hm Hall); reflexivity.
Qed.

Lemma validateSelection_valid_iff_witness :
  isValid (validateSelection builtin_get_undefined "TAB638"
    [("Region", ["1484"]); ("kön", ["Men"])] "sv" (Ok sample_metadata)) = true /\
  validateSelection builtin_get_undefined "TAB638"
    [("Region", ["1484"]); ("kön", ["Men"])] "sv" (Ok sample_metadata)
  = {| isValid := true; errors := []; suggestions := [];
       translatedSelection := Some [("Region", [JStr "1484"]); ("Kon", [JStr "1"])] |}.
Proof.
  split.
  - apply (proj1 (validateSelection_valid_iff builtin_get_undefined "TAB638"
      [("Region", ["1484"]); ("kön", ["Men"])] "sv" sample_metadata _ eq_refl)).
    exists [("Region", [JStr "1484"]); ("Kon", [JStr "1"])]; repeat split; vm_compute; reflexivity.
  - apply (proj2 (validateSelection_valid_iff builtin_get_undefined "TAB638"
      [("Region", ["1484"]); ("kön", ["Men"])] "sv" sample_metadata _ eq_refl));
      vm_compute; reflexivity.
Defined.

(** *** Usage counters *)






Lemma ceil_div_pos a : 1 <= a -> 1 <= ceil_div a 1000.
Proof.
  intros Ha; unfold ceil_div.
  assert (H : (- a) / 1000 < 0) by (apply Z.div_lt_upper_bound; lia); lia.
Qed.

(** A rejected admission check asks to wait at least one second (for a
    positive time window) and reports a usage at or above the cap. *)
Theorem checkRateLimit_rejection cfg tinit now w r msg :
  rateLimitInfo (initializeRateLimit cfg tinit w) = Some r -> 0 < timeWindow r ->
  snd (checkRateLimit cfg tinit now w) = Throw msg ->
  exists n,
    msg = "Rate limit exceeded. Try again in " ++ Z_to_string n
          ++ " seconds. Current usage: "
          ++ Z_to_string (requestCount (fst (checkRateLimit cfg tinit now w)))
          ++ "/" ++ Z_to_string (maxCalls r) /\
    1 <= n /\ maxCalls r <= requestCount (fst (checkRateLimit cfg tinit now w)).
Proof.
  intros Hr Htw; rewrite checkRateLimit_init.
  remember (initializeRateLimit cfg tinit w) as w1 eqn:Ew; clear Ew.
  unfold checkRateLimit; repeat (rewrite Hr; simpl).
  destruct (Z.leb (resetTime r) now) eqn:Er; simpl;
    match goal with |- context [Z.leb (maxCalls r) ?x] =>
      destruct (Z.leb (maxCalls r) x) eqn:Em end; simpl;
    intros H; try discriminate H; injection H as <-;
    apply Z.leb_le in Em; eexists; (split; [reflexivity|]); split; try lia;
    apply ceil_div_pos.
  - lia.
  - rewrite Hr; apply Z.leb_gt in Er; lia.
Qed.

Lemma checkRateLimit_rejection_witness :
  exists n, "Rate limit exceeded. Try again in 10 seconds. Current usage: 1/1"
    = "Rate limit exceeded. Try again in " ++ Z_to_string n ++ " seconds. Current usage: "
      ++ Z_to_string (requestCount (fst (checkRateLimit cfg_cap1 5 5
           (run_calls [Call cfg_cap1 0 0 (Delivered (Ok tt))] (new_client 0)))))
      ++ "/" ++ Z_to_string 1 /\
    1 <= n /\ 1 <= requestCount (fst (checkRateLimit cfg_cap1 5 5
           (run_calls [Call cfg_cap1 0 0 (Delivered (Ok tt))] (new_client 0)))).
Proof.
  apply (checkRateLimit_rejection cfg_cap1 5 5
           (run_calls [Call cfg_cap1 0 0 (Delivered (Ok tt))] (new_client 0))
           {| remaining := 0; resetTime := 10000; maxCalls := 1; timeWindow := 10 |});
    [vm_compute; reflexivity | simpl; lia | vm_compute; reflexivity].
Defined.

(** *** [getTableData] *)

Lemma validateSelection_valid_inv bg tableId sel lang md :
  isValid (validateSelection bg tableId sel lang md) = true ->
  exists m final, md = Ok m /\ finalSelection_of bg sel lang = Ok final /\
    translatedSelection (validateSelection bg tableId sel lang md) = Some final.
Proof.
  unfold validateSelection, validateSelection_try.
  destruct (finalSelection_of bg sel lang) as [final|msg]; simpl; [|discriminate].
  destruct md as [m|msg]; simpl; [|discriminate].
  destruct (dimension m) as [dims|]; simpl; [|discriminate].
  destruct (check_variables _ _ _ _ _) as [r|msg]; simpl; [|discriminate].
  intros _; exists m, final; auto.
Qed.

(** With a selection, a failed metadata request (admission check, network
    or HTTP error) is reported as a failed validation, and no [POST] is
    made: the outcome does not depend on [cfg2], [now2] or [post]. *)
Theorem getTableData_metadata_failure bg tableId sel lang cfg1 tinit1 now1 tr
    cfg2 tinit2 now2 post w w1 msg final :
  makeRequest cfg1 tinit1 now1 tr w = (w1, Throw msg) ->
  finalSelection_of bg sel lang = Ok final ->
  getTableData bg tableId (Some sel) lang cfg1 tinit1 now1 tr cfg2 tinit2 now2 post w
  = (w1, Throw ("Selection validation failed:" ++ nl ++ "Validation failed: " ++ msg
                ++ nl ++ nl ++ "Suggestions:" ++ nl
                ++ "Try checking if the table ID is correct with scb_get_table_info")).
Proof.
  intros E Hf; unfold getTableData; rewrite E.
  unfold validateSelection, validateSelection_try; rewrite Hf; reflexivity.
Qed.

Lemma getTableData_metadata_failure_witness :
  getTableData builtin_get_undefined "TAB638" (Some [("Region", ["1484"])]) "sv"
    cfg_cap1 5 5 (Delivered (Ok sample_metadata))
    cfg_cap1 6 6 (fun _ => Throw "unreachable")
    {| rateLimitInfo := Some {| remaining := 0; resetTime := 10000; maxCalls := 1;
                                timeWindow := 10 |};
       requestCount := 1; windowStartTime := 0 |}
  = ({| rateLimitInfo := Some {| remaining := 0; resetTime := 10000; maxCalls := 1;
                                 timeWindow := 10 |};
        requestCount := 1; windowStartTime := 0 |},
     Throw ("Selection validation failed:" ++ nl ++ "Validation failed: "
            ++ "Rate limit exceeded. Try again in 10 seconds. Current usage: 1/1"
            ++ nl ++ nl ++ "Suggestions:" ++ nl
            ++ "Try checking if the table ID is correct with scb_get_table_info")).
Proof.
  apply (getTableData_metadata_failure builtin_get_undefined "TAB638" [("Region", ["1484"])] "sv"
           cfg_cap1 5 5 (Delivered (Ok sample_metadata)) cfg_cap1 6 6 (fun _ => Throw "unreachable")
           _ _ _ [("Region", [JStr "1484"])]); vm_compute; reflexivity.
Defined.





Lemma handle_post_ok w resp d :
  handle_post w resp = Ok d -> response_ok resp = true /\ parsed_json resp = Ok d.
Proof.
  unfold handle_post; destruct (response_ok resp); [auto|].
  destruct (Z.eqb (status resp) 429); [discriminate|].
  destruct (Z.eqb (status resp) 403); [discriminate|].
  destruct (Z.eqb (status resp) 400); discriminate.
Qed.

(** A [getTableData] call with a selection returns data only when the
    metadata request succeeded, the selection passed validation, and the
    [POST] of the translated selection, in property order, got a 2xx
    response whose body parsed to that data; the server's answer to any
    other body plays no part. *)
Theorem getTableData_success bg tableId sel lang cfg1 tinit1 now1 tr
    cfg2 tinit2 now2 post w d :
  snd (getTableData bg tableId (Some sel) lang cfg1 tinit1 now1 tr cfg2 tinit2 now2 post w)
    = Ok d ->
  exists m final resp,
    snd (makeRequest cfg1 tinit1 now1 tr w) = Ok m /\
    finalSelection_of bg sel lang = Ok final /\
    isValid (validateSelection bg tableId sel lang (Ok m)) = true /\
    post (js_property_order final) = Ok resp /\
    response_ok resp = true /\ parsed_json resp = Ok d /\
    (forall post', post' (js_property_order final) = post (js_property_order final) ->
       getTableData bg tableId (Some sel) lang cfg1 tinit1 now1 tr cfg2 tinit2 now2 post' w
       = getTableData bg tableId (Some sel) lang cfg1 tinit1 now1 tr cfg2 tinit2 now2 post w).
Proof.
  unfold getTableData at 1.
  destruct (makeRequest cfg1 tinit1 now1 tr w) as [w1 md] eqn:E.
  destruct (isValid (validateSelection bg tableId sel lang md)) eqn:Ev; simpl; [|discriminate].
  destruct (validateSelection_valid_inv _ _ _ _ _ Ev) as (m & final & -> & Hf & Ht).
  rewrite Ht.
  destruct (checkRateLimit cfg2 tinit2 now2 w1) as [w2 adm] eqn:E2.
  destruct adm as [[]|msg]; [|discriminate].
  destruct (post (js_property_order final)) as [resp|msg] eqn:Ep; simpl; [|discriminate].
  intros Hd; apply handle_post_ok in Hd as [Hok Hd].
  exists m, final, resp; repeat split; auto.
  intros post' Hp; unfold getTableData; rewrite E, Ev; simpl; rewrite Ht, E2, Hp, Ep; reflexivity.
Qed.

Lemma getTableData_success_witness :
  exists m final resp,
    snd (makeRequest cfg_cap2 0 0 (Delivered (Ok sample_metadata)) (new_client 0)) = Ok m /\
    finalSelection_of builtin_get_undefined [("Region", ["1484"]); ("kön", ["Men"])] "sv"
      = Ok final /\
    isValid (validateSelection builtin_get_undefined "TAB638"
               [("Region", ["1484"]); ("kön", ["Men"])] "sv" (Ok m)) = true /\
    (fun _ : list (string * list jsval) =>
       Ok {| status := 200; statusText := "OK"; text := Ok "";
             parsed_json := Ok example_dataset |} : jsres Response) (js_property_order final)
      = Ok resp /\
    response_ok resp = true /\ parsed_json resp = Ok example_dataset /\
    (forall post', post' (js_property_order final)
                     = Ok {| status := 200; statusText := "OK"; text := Ok "";
                             parsed_json := Ok example_dataset |} ->
       getTableData builtin_get_undefined "TAB638" (Some [("Region", ["1484"]); ("kön", ["Men"])])
         "sv" cfg_cap2 0 0 (Delivered (Ok sample_metadata)) cfg_cap2 1 1 post' (new_client 0)
       = getTableData builtin_get_undefined "TAB638" (Some [("Region", ["1484"]); ("kön", ["Men"])])
         "sv" cfg_cap2 0 0 (Delivered (Ok sample_metadata)) cfg_cap2 1 1
         (fun _ => Ok {| status := 200; statusText := "OK"; text := Ok "";
                         parsed_json := Ok example_dataset |}) (new_client 0)).
Proof.
  apply (getTableData_success builtin_get_undefined "TAB638"
           [("Region", ["1484"]); ("kön", ["Men"])] "sv"
           cfg_cap2 0 0 (Delivered (Ok sample_metadata)) cfg_cap2 1 1
           (fun _ => Ok {| status := 200; statusText := "OK"; text := Ok "";
                           parsed_json := Ok example_dataset |}) (new_client 0) example_dataset).
  vm_compute; reflexivity.
Defined.

Lemma checkRateLimit_in_window cfg tinit now w r :
  rateLimitInfo w = Some r -> now < resetTime r ->
  fst (checkRateLimit cfg tinit now w) = w /\
  (snd (checkRateLimit cfg tinit now w) = Ok tt <-> requestCount w < maxCalls r).
Proof.
  intros Hr Hlt; unfold checkRateLimit; rewrite Hr; simpl; rewrite Hr.
  destruct (Z.leb_spec (resetTime r) now) as [|_]; [lia|].
  destruct (Z.leb_spec (maxCalls r) (requestCount w)); simpl;
    (split; [reflexivity|]); split; intros Hx; try discriminate Hx; try lia; reflexivity.
Qed.

Lemma validateSelection_meta_throw bg tableId sel lang msg :
  isValid (validateSelection bg tableId sel lang (Throw msg)) = false.
Proof.
  unfold validateSelection, validateSelection_try.
  destruct (finalSelection_of bg sel lang); reflexivity.
Qed.

(** Within one usage window, a [getTableData] call with a selection that
    returns data counts exactly two calls: the metadata request and the
    [POST]. *)
Theorem getTableData_counts_two_calls bg tableId sel lang cfg1 tinit1 now1 tr
    cfg2 tinit2 now2 post w r d :
  rateLimitInfo w = Some r -> now1 < resetTime r -> now2 < resetTime r ->
  snd (getTableData bg tableId (Some sel) lang cfg1 tinit1 now1 tr cfg2 tinit2 now2 post w)
    = Ok d ->
  requestCount (fst (getTableData bg tableId (Some sel) lang cfg1 tinit1 now1 tr
                       cfg2 tinit2 now2 post w)) = requestCount w + 2.
Proof.
  intros Hr H1 H2 Hd; unfold getTableData, makeRequest in *.
  destruct (checkRateLimit_in_window cfg1 tinit1 now1 w r Hr H1) as [Ew _].
  destruct (checkRateLimit cfg1 tinit1 now1 w) as [w1 adm] eqn:E; simpl in Ew; subst w1.
  destruct adm as [[]|msg]; [destruct tr as [msg|res]|];
    try (rewrite validateSelection_meta_throw in Hd |- *; discriminate Hd).
  destruct (negb (isValid (validateSelection bg tableId sel lang res))); [discriminate Hd|].
  assert (Hr1 : rateLimitInfo (recordCall w)
                = Some {| remaining := Z.max 0 (maxCalls r - (requestCount w + 1));
                          resetTime := resetTime r; maxCalls := maxCalls r;
                          timeWindow := timeWindow r |})
    by (unfold recordCall; rewrite Hr; reflexivity).
  destruct (checkRateLimit_in_window cfg2 tinit2 now2 _ _ Hr1 H2) as [Ew2 _].
  destruct (checkRateLimit cfg2 tinit2 now2 (recordCall w)) as [w2 adm2] eqn:E2;
    simpl in Ew2; subst w2.
  destruct adm2 as [[]|msg]; [|discriminate Hd].
  destruct (post _) as [resp|msg]; [|discriminate Hd].
  simpl; lia.
Qed.

Lemma getTableData_counts_two_calls_witness :
  requestCount (fst (getTableData builtin_get_undefined "TAB638"
    (Some [("Region", ["1484"]); ("kön", ["Men"])]) "sv"
    cfg_cap2 5 5 (Delivered (Ok sample_metadata)) cfg_cap2 6 6
    (fun _ => Ok {| status := 200; statusText := "OK"; text := Ok "";
                    parsed_json := Ok example_dataset |})
    {| rateLimitInfo := Some {| remaining := 30; resetTime := 10000; maxCalls := 30;
                                timeWindow := 10 |};
       requestCount := 0; windowStartTime := 0 |})) = 0 + 2.
Proof.
  apply (getTableData_counts_two_calls builtin_get_undefined "TAB638"
           [("Region", ["1484"]); ("kön", ["Men"])] "sv"
           cfg_cap2 5 5 (Delivered (Ok sample_metadata)) cfg_cap2 6 6
           (fun _ => Ok {| status := 200; statusText := "OK"; text := Ok "";
                           parsed_json := Ok example_dataset |})
           {| rateLimitInfo := Some {| remaining := 30; resetTime := 10000; maxCalls := 30;
                                       timeWindow := 10 |};
              requestCount := 0; windowStartTime := 0 |}
           {| remaining := 30; resetTime := 10000; maxCalls := 30; timeWindow := 10 |}
           example_dataset);
    [reflexivity | simpl; lia | simpl; lia | vm_compute; reflexivity].
Defined.

(** *** [searchTables] *)

Lemma string_app_nil_r s : s ++ "" = s.
Proof. induction s as [|c s IH]; simpl; [reflexivity | rewrite IH; reflexivity]. Qed.

Lemma string_app_assoc a b c : (a ++ b) ++ c = a ++ (b ++ c).
Proof. induction a as [|x a IH]; simpl; [reflexivity | rewrite IH; reflexivity]. Qed.

Lemma plus_to_space_app a b : plus_to_space (a ++ b) = plus_to_space a ++ plus_to_space b.
Proof. induction a as [|x a IH]; simpl; [reflexivity | rewrite IH; reflexivity]. Qed.

Lemma form_encode_byte_decode c rest :
  percent_decode (plus_to_space (form_encode_byte c ++ rest))
  = String c (percent_decode (plus_to_space rest)).
Proof.
  rewrite plus_to_space_app; destruct c as [[] [] [] [] [] [] [] []]; reflexivity.
Qed.

Lemma form_encode_decode_app s rest :
  percent_decode (plus_to_space (form_encode s ++ rest))
  = s ++ percent_decode (plus_to_space rest).
Proof.
  induction s as [|c s IH]; [reflexivity|].
  cbn [form_encode]; rewrite string_app_assoc, form_encode_byte_decode, IH; reflexivity.
Qed.

Lemma form_encode_decode s : percent_decode (plus_to_space (form_encode s)) = s.
Proof.
  rewrite <- (string_app_nil_r (form_encode s)), form_encode_decode_app, string_app_nil_r;
    reflexivity.
Qed.

Lemma split_on_cons c s : exists p ps, split_on c s = p :: ps.
Proof.
  induction s as [|x s (p & ps & IH)]; simpl; [eauto|].
  rewrite IH; destruct (Ascii.eqb x c); eauto.
Qed.

Lemma split_on_amp_byte c b :
  split_on "&"%char (form_encode_byte c ++ b)
  = match split_on "&"%char b with
    | [] => [form_encode_byte c]
    | p :: ps => (form_encode_byte c ++ p) :: ps
    end.
Proof.
  destruct (split_on "&"%char b) as [|p ps] eqn:E;
    destruct c as [[] [] [] [] [] [] [] []]; simpl; rewrite ?E; reflexivity.
Qed.

Lemma split_on_amp_encode s b :
  split_on "&"%char (form_encode s ++ b)
  = match split_on "&"%char b with
    | [] => [form_encode s]
    | p :: ps => (form_encode s ++ p) :: ps
    end.
Proof.
  induction s as [|c s IH]; cbn [form_encode].
  - simpl; destruct (split_on_cons "&"%char b) as (p & ps & ->); reflexivity.
  - rewrite string_app_assoc, split_on_amp_byte, IH.
    destruct (split_on "&"%char b) as [|p ps]; [reflexivity|].
    rewrite string_app_assoc; reflexivity.
Qed.

Lemma split_eq_byte c b :
  split_eq (form_encode_byte c ++ b)
  = let (n, v) := split_eq b in (form_encode_byte c ++ n, v).
Proof.
  destruct (split_eq b) as [n v] eqn:E;
    destruct c as [[] [] [] [] [] [] [] []]; simpl; rewrite ?E; reflexivity.
Qed.

Lemma split_eq_encode n v :
  split_eq (form_encode n ++ "=" ++ v) = (form_encode n, v).
Proof.
  induction n as [|c n IH]; [reflexivity|].
  cbn [form_encode]; rewrite string_app_assoc, split_eq_byte, IH; reflexivity.
Qed.

(** One serialized pair, [name=value]. *)
Lemma split_on_amp_pair n v b :
  split_on "&"%char ((form_encode n ++ "=" ++ form_encode v) ++ b)
  = match split_on "&"%char b with
    | [] => [form_encode n ++ "=" ++ form_encode v]
    | p :: ps => ((form_encode n ++ "=" ++ form_encode v) ++ p) :: ps
    end.
Proof.
  rewrite !string_app_assoc, split_on_amp_encode; cbn [append split_on Ascii.eqb Bool.eqb].
  rewrite split_on_amp_encode.
  destruct (split_on "&"%char b) as [|p ps]; [reflexivity|].
  rewrite !string_app_assoc; reflexivity.
Qed.

Lemma split_on_amp_sep z : split_on "&"%char ("&" ++ z) = "" :: split_on "&"%char z.
Proof. reflexivity. Qed.

Lemma split_on_amp_concat l :
  l <> [] ->
  split_on "&"%char (String.concat "&" (map (fun '(n, v) => form_encode n ++ "=" ++ form_encode v) l))
  = map (fun '(n, v) => form_encode n ++ "=" ++ form_encode v) l.
Proof.
  induction l as [|[n v] l IH]; intros Hne; [contradiction|].
  destruct l as [|[n' v'] l].
  - simpl map; cbn [String.concat].
    rewrite <- (string_app_nil_r (form_encode n ++ "=" ++ form_encode v)) at 1.
    rewrite split_on_amp_pair; cbn [split_on]; rewrite string_app_nil_r; reflexivity.
  - change (String.concat "&" (map (fun '(n0, v0) => form_encode n0 ++ "=" ++ form_encode v0)
              ((n, v) :: (n', v') :: l)))
      with ((form_encode n ++ "=" ++ form_encode v) ++ "&" ++
            String.concat "&" (map (fun '(n0, v0) => form_encode n0 ++ "=" ++ form_encode v0)
              ((n', v') :: l))).
    rewrite split_on_amp_pair, split_on_amp_sep, string_app_nil_r, IH by discriminate;
      reflexivity.
Qed.

(** Parsing a serialized [URLSearchParams] gives back its pairs. *)
Lemma form_parse_toString l : form_parse (usp_toString l) = l.
Proof.
  unfold form_parse, usp_toString.
  destruct l as [|p l]; [reflexivity|].
  rewrite split_on_amp_concat by discriminate.
  induction (p :: l) as [|[n v] l' IH]; [reflexivity|].
  cbn [map filter].
  assert (Hne : String.eqb (form_encode n ++ "=" ++ form_encode v) "" = false).
  { destruct (form_encode n); reflexivity. }
  rewrite Hne; cbn [negb map]; rewrite split_eq_encode, !form_encode_decode, IH; reflexivity.
Qed.

Lemma usp_set_fresh l name v :
  existsb (fun p => String.eqb (fst p) (to_usv name)) l = false ->
  usp_set l name v = (l ++ [(to_usv name, to_usv v)])%list.
Proof. intros H; unfold usp_set; rewrite H; reflexivity. Qed.

(** The endpoint of [searchTables] is [/tables?] and a query string that
    parses back to exactly these parameters, in this order: [query] if
    non-empty, [pastDays] if non-zero, [includeDiscontinued] if given (also
    [false]), [pageNumber] and [pageSize] if non-zero, [lang] if non-empty;
    each value arrives as given, whatever characters ([&], [=], [+], ...)
    it contains. *)
Theorem searchTables_query_roundtrip params :
  exists qs, searchTables_endpoint params = "/tables?" ++ qs /\
  form_parse qs =
    (param_if "query" (match query params with
                       | Some q => if String.eqb q "" then None else Some q
                       | None => None end)
     ++ param_if "pastDays" (match pastDays params with
                             | Some d => if Z.eqb d 0 then None else Some (Z_to_string d)
                             | None => None end)
     ++ param_if "includeDiscontinued"
          (option_map (fun b : bool => if b then "true" else "false") (includeDiscontinued params))
     ++ param_if "pageNumber" (match pageNumber params with
                               | Some n => if Z.eqb n 0 then None else Some (Z_to_string n)
                               | None => None end)
     ++ param_if "pageSize" (match pageSize params with
                             | Some n => if Z.eqb n 0 then None else Some (Z_to_string n)
                             | None => None end)
     ++ param_if "lang" (match sp_lang params with
                         | Some l => if String.eqb l "" then None else Some l
                         | None => None end))%list.
Proof.
  exists (usp_toString (searchTables_params params)); split; [reflexivity|].
  rewrite form_parse_toString; unfold searchTables_params.
  destruct params as [q pd inc pn ps lg]; cbn [query pastDays includeDiscontinued pageNumber
    pageSize sp_lang].
  destruct q as [q|]; [destruct (String.eqb q "")|];
  destruct pd as [pd|]; try destruct (Z.eqb pd 0);
  destruct inc as [inc|];
  destruct pn as [pn|]; try destruct (Z.eqb pn 0);
  destruct ps as [ps|]; try destruct (Z.eqb ps 0);
  destruct lg as [lg|]; try destruct (String.eqb lg ""); reflexivity.
Qed.
